(** * The MJML save middleware of the newsletter editor

    A shallow embedding of [src/editor/api/index.js]: the [apiFetch]
    middleware that, when a newsletter post is saved, persists the post meta,
    asks the server for the MJML markup of the content, backfills the width
    of the images, converts the markup to email HTML and stores it as post
    meta, and only then lets the save request through.

    JavaScript values are a small tagged union, objects used as maps are
    [gmap]s with string keys, promises are computations over an append-only
    log of the calls made to the outside (network, image loader, rest of the
    middleware chain) that either resolve or reject. What throws in the
    source rejects here: reading a property of [null] or [undefined], and
    the MJML converter on markup it does not accept. *)

From Stdlib Require Import ZArith Ascii.
From stdpp Require Import base option list strings gmap fin_maps pretty.

Local Open Scope string_scope.
Local Open Scope list_scope.

(** ** JavaScript values *)

Module JS.

(** The primitive values that travel through the request payloads. [Num]
    is an integer in the range JavaScript holds exactly, below [2^53] in
    size (post ids, pixel widths), where a number prints as its decimal
    digits; [Real] is any other number but [NaN] (a fraction, a larger
    number, an infinity), given by the text it prints as. *)
Inductive value :=
| Undefined
| Null
| Bool (b : bool)
| Num (n : Z)
| NaN
| Real (printed : string)
| Str (s : string).

#[export] Instance value_eq_dec : EqDecision value.
Proof. solve_decision. Defined.

(** [ToBoolean]: what [! v] and [if ( v )] look at. *)
Definition truthy (v : value) : bool :=
  match v with
  | Undefined | Null | NaN => false
  | Bool b => b
  | Num n => negb (n =? 0)%Z
  | Real _ => true
  | Str s => negb (String.eqb s "")
  end.

(** [ToString], as a template literal applies it. *)
Definition toString (v : value) : string :=
  match v with
  | Undefined => "undefined"
  | Null => "null"
  | Bool true => "true"
  | Bool false => "false"
  | Num n => pretty n
  | NaN => "NaN"
  | Real printed => printed
  | Str s => s
  end.

(** A property read on an object: a missing key reads [undefined]. *)
Definition get (o : gmap string value) (k : string) : value :=
  default Undefined (o !! k).

(** [String.prototype.indexOf], with [None] for the result [-1]. *)
Definition indexOf (s sub : string) : option nat := String.index 0 sub s.

End JS.

(** ** lodash *)

Module Lodash.

(** [pick( object, paths )]: a fresh object that receives, path by path,
    the properties the source object has. A nullish source gives [{}]. *)
Definition pick (object : option (gmap string JS.value)) (paths : list string)
  : gmap string JS.value :=
  match object with
  | None => ∅
  | Some o =>
      foldl (fun result k =>
               match o !! k with
               | Some v => <[ k := v ]> result
               | None => result
               end) ∅ paths
  end.

(** [omit( object, paths )]: a copy of the object from which every path is
    then unset. *)
Definition omit (object : gmap string JS.value) (paths : list string)
  : gmap string JS.value :=
  foldl (fun result k => delete k result) object paths.

(** [includes( collection, value )] on an array of strings. *)
Definition includes (collection : list string) (v : string) : bool :=
  bool_decide (v ∈ collection).

End Lodash.

(** ** Requests *)

(** The [data] object of a request. The fields the middleware reads or
    writes are named; every other property of the payload is in [rest]. *)
Record Data := mkData {
  content : JS.value;
  id : JS.value;
  title : JS.value;
  post_id : JS.value;
  meta : option (gmap string JS.value);
  rest : gmap string JS.value;
}.

(** The [data] property of a request: not there, [null], or an object. *)
Inductive Payload :=
| Absent
| IsNull
| Given (d : Data).

(** The [options] object handed to [apiFetch] and to a middleware. *)
Record Options := mkOptions {
  method : option string;
  path : option string;
  data : Payload;
  extra : gmap string JS.value;
}.

(** The parsed JSON body a request resolves with: an object, or another
    JSON value ([Primitive JS.Null] for the body [null] or an empty one). *)
Inductive Response :=
| Object (fields : gmap string JS.value)
| Primitive (v : JS.value).

(** What [getImageSize] resolves with. *)
Record Size := mkSize { width : Z; height : Z }.

(** ** The calls to the outside *)

Inductive Event :=
| EvApiFetch (o : Options) (r : option Response)
| EvImage (src : string) (r : option Size)
| EvNext (o : Options) (r : option Response).

(** Why a promise rejected. *)
Inductive Rejection :=
| FetchRejected (o : Options)
| ImageError (src : string)
| NextRejected (o : Options)
| TypeError
| ConversionError.

Inductive Outcome (A : Type) :=
| Resolved (a : A)
| Rejected (why : Rejection).
Arguments Resolved {A} a.
Arguments Rejected {A} why.

(** An asynchronous computation: from the log so far to the log afterwards
    and the way the promise settled. *)
Definition Async (A : Type) : Type := list Event → list Event * Outcome A.

Definition resolve {A} (a : A) : Async A := fun h => (h, Resolved a).
Definition throw {A} (why : Rejection) : Async A := fun h => (h, Rejected why).

(** A synchronous step, which returns or throws and logs nothing. *)
Definition settle {A} (o : Outcome A) : Async A := fun h => (h, o).

(** [await]: run [c], and continue with its value unless it rejected. *)
Definition await {A B} (c : Async A) (k : A → Async B) : Async B :=
  fun h =>
    match c h with
    | (h', Resolved a) => k a h'
    | (h', Rejected why) => (h', Rejected why)
    end.

Notation "'let*' x := c 'in' k" := (await c (fun x => k))
  (at level 10, x binder, c at level 100, k at level 200).

(** ** The DOM fragment of a [<template>] *)

(** An element as the loop sees it: its local name and its attributes in
    source order. *)
Record Element := mkElement {
  tagName : string;
  attributes : list (string * string);
}.

(** [element.getAttribute( name )]: [None] is [null]. *)
Fixpoint lookupAttr (attrs : list (string * string)) (name : string) : option string :=
  match attrs with
  | [] => None
  | (k, v) :: attrs' => if String.eqb k name then Some v else lookupAttr attrs' name
  end.

Definition getAttribute (e : Element) (name : string) : option string :=
  lookupAttr (attributes e) name.

(** [element.setAttribute( name, value )]: the first attribute of that name
    gets the value, or a new attribute is appended. *)
Fixpoint updateAttr (attrs : list (string * string)) (name v : string)
  : list (string * string) :=
  match attrs with
  | [] => [(name, v)]
  | (k, v0) :: attrs' =>
      if String.eqb k name then (k, v) :: attrs'
      else (k, v0) :: updateAttr attrs' name v
  end.

Definition setAttribute (e : Element) (name v : string) : Element :=
  mkElement (tagName e) (updateAttr (attributes e) name v).

(** [! element.getAttribute( ... )]: [null] and the empty string are falsy. *)
Definition attrTruthy (a : option string) : bool :=
  match a with
  | None => false
  | Some s => negb (String.eqb s "")
  end.

(** The string assigned to [img.src]: [null] becomes the text "null". *)
Definition srcString (a : option string) : string := default "null" a.

(** ** The middleware and its environment *)

(** [window.newspack_email_editor_data], the page-level configuration. *)
Record EditorData := mkEditorData {
  mjml_handling_post_types : list string;
  email_html_meta : string;
}.

(** What [select( 'core/editor' )] answers at the time of the request. *)
Record EditorSelector := mkEditorSelector {
  getCurrentPostType : string;
  getEditedPostMeta : option (gmap string JS.value);
}.

Definition POST_META_WHITELIST : list string :=
  [ "is_public";
    "preview_text";
    "diable_ads";
    "font_body";
    "font_header";
    "background_color";
    "custom_css";
    "newsletter_sent" ].

Definition mj_image : string := "mj-image".

(** A payload with no property set. *)
Definition noData : Data :=
  mkData JS.Undefined JS.Undefined JS.Undefined JS.Undefined None ∅.

(** The content of a [<template>]: its elements in document order, an
    element being referred to by its position, and the rest of the tree
    (text nodes, nesting), which the loop never looks at. *)
Record Fragment (Skeleton : Type) := mkFragment {
  skeleton : Skeleton;
  elements : list Element;
}.
Arguments mkFragment {Skeleton} _ _.
Arguments skeleton {Skeleton} _.
Arguments elements {Skeleton} _.

(** Everything the module calls or reads.

    The browser: the HTML parser behind [innerHTML =], the serializer behind
    reading [innerHTML], and the image loader behind [new Image()], which
    may answer differently as time goes by ([None] is [onerror]).
    [mjml-browser], called with [{ keepComments: false, minify: true }]: the
    [html] property of its result, [None] when it throws, as it does on
    markup without an [mjml] root. What lies behind [apiFetch] and behind
    [next]: the answer to a request given everything that happened before
    ([None] is a rejection). The page configuration and the editor store. *)
Record World := mkWorld {
  Skeleton : Type;
  parseHTML : string → Fragment Skeleton;
  serializeHTML : Fragment Skeleton → string;
  loader : list Event → string → option Size;
  mjml2html : string → option string;
  server : list Event → Options → option Response;
  chain : list Event → Options → option Response;
  config : EditorData;
  editorSelector : EditorSelector;
}.

Section Middleware.

Variable w : World.

Definition apiFetch (o : Options) : Async Response :=
  fun h =>
    let r := server w h o in
    (h ++ [EvApiFetch o r],
     match r with
     | Some response => Resolved response
     | None => Rejected (FetchRejected o)
     end).

Definition next (o : Options) : Async Response :=
  fun h =>
    let r := chain w h o in
    (h ++ [EvNext o r],
     match r with
     | Some response => Resolved response
     | None => Rejected (NextRejected o)
     end).

Definition getImageSize (src : string) : Async Size :=
  fun h =>
    let r := loader w h src in
    (h ++ [EvImage src r],
     match r with
     | Some size => Resolved size
     | None => Rejected (ImageError src)
     end).

(** [querySelectorAll( selector )] for a type selector: the positions of
    the matching elements, in document order, counted from [i]. *)
Fixpoint matching (selector : string) (els : list Element) (i : nat) : list nat :=
  match els with
  | [] => []
  | e :: els' =>
      if String.eqb (tagName e) selector
      then i :: matching selector els' (S i)
      else matching selector els' (S i)
  end.

Definition querySelectorAll (template : Fragment (Skeleton w)) (selector : string)
  : list nat :=
  matching selector (elements template) 0.

(** The [for] loop of [fixImagesWidth] over the node list [images]; [dom]
    is the state of the elements, updated in place by [setAttribute]. *)
Fixpoint fixImagesLoop (images : list nat) (dom : list Element)
  : Async (list Element) :=
  match images with
  | [] => resolve dom
  | i :: images' =>
      match dom !! i with
      | None => throw TypeError
      | Some element =>
          if negb (attrTruthy (getAttribute element "width")) then
            let src := getAttribute element "src" in
            let* size := getImageSize (srcString src) in
            fixImagesLoop images'
              (<[ i := setAttribute element "width" (pretty (width size)) ]> dom)
          else fixImagesLoop images' dom
      end
  end.

(** The fragment [fixImagesWidth] serializes in the end. *)
Definition fixImagesFragment (mjml : string) : Async (Fragment (Skeleton w)) :=
  let template := parseHTML w mjml in
  let images := querySelectorAll template mj_image in
  let* dom := fixImagesLoop images (elements template) in
  resolve (mkFragment (skeleton template) dom).

Definition fixImagesWidth (mjml : string) : Async string :=
  let* template := fixImagesFragment mjml in
  resolve (serializeHTML w template).

(** [mjmlHandlingPostTypes.some( postType => path.indexOf( postType ) !== -1 )].
    The callback runs once per post type until one matches; on a request
    without [path] its first run throws. *)
Definition somePostTypeInPath (types : list string) (path : option string)
  : Outcome bool :=
  match types, path with
  | [], _ => Resolved false
  | _ :: _, None => Rejected TypeError
  | _, Some p =>
      Resolved (existsb (fun postType => bool_decide (is_Some (JS.indexOf p postType)))
                  types)
  end.

(** What the destructuring [{ method, path, data = {} } = options] binds
    [data] to: the default replaces a [data] that is not there and leaves
    [null], for which [None] stands. *)
Definition destructuredData (options : Options) : option Data :=
  match data options with
  | Absent => Some noData
  | IsNull => None
  | Given d => Some d
  end.

(** The assignment [options.data.meta = omit( ... )], done when
    [options.data.meta] is there. It is reached with an object as
    [options.data] only. *)
Definition stripMeta (emailHTMLMetaName : string) (options : Options) : Options :=
  match data options with
  | Given d =>
      match meta d with
      | Some m =>
          mkOptions (method options) (path options)
            (Given (mkData (content d) (id d) (title d) (post_id d)
                      (Some (Lodash.omit m (POST_META_WHITELIST ++ [emailHTMLMetaName])))
                      (rest d)))
            (extra options)
      | None => options
      end
  | _ => options
  end.

(** The destructuring [{ mjml } = response]: it throws on [null] and
    [undefined], and reads [undefined] off any other value that is not an
    object. *)
Definition mjmlOf (response : Response) : Outcome JS.value :=
  match response with
  | Object fields => Resolved (JS.get fields "mjml")
  | Primitive JS.Undefined | Primitive JS.Null => Rejected TypeError
  | Primitive _ => Resolved JS.Undefined
  end.

(** The call of [mjml2html] and the destructuring of its result. *)
Definition htmlOf (converted : option string) : Outcome string :=
  match converted with
  | Some html => Resolved html
  | None => Rejected ConversionError
  end.

(** The text [template.innerHTML = v] parses: [null] is the empty string. *)
Definition innerHTMLText (v : JS.value) : string :=
  match v with
  | JS.Null => ""
  | _ => JS.toString v
  end.

(** The three requests the middleware sends itself. *)
Definition metaPath (postType : string) (d : Data) : string :=
  "/wp/v2/" +:+ postType +:+ "/" +:+ JS.toString (id d).

Definition saveMetaRequest (postType : string) (d : Data)
    (postMeta : option (gmap string JS.value)) : Options :=
  mkOptions (Some "POST") (Some (metaPath postType d))
    (Given (mkData JS.Undefined JS.Undefined JS.Undefined JS.Undefined
              (Some (Lodash.pick postMeta POST_META_WHITELIST)) ∅))
    ∅.

Definition postMjmlPath : string := "/newspack-newsletters/v1/post-mjml".

Definition postMjmlRequest (d : Data) : Options :=
  mkOptions (Some "POST") (Some postMjmlPath)
    (Given (mkData (content d) JS.Undefined (title d) (id d) None ∅))
    ∅.

Definition saveHtmlRequest (postType : string) (d : Data)
    (emailHTMLMetaName html : string) : Options :=
  mkOptions (Some "POST") (Some (metaPath postType d))
    (Given (mkData JS.Undefined JS.Undefined JS.Undefined JS.Undefined
              (Some {[ emailHTMLMetaName := JS.Str html ]}) ∅))
    ∅.

(** What the middleware does once a request got through the four guards. *)
Definition convertAndSave (options : Options) (d : Data) (postType : string)
  : Async Response :=
  let emailHTMLMetaName := email_html_meta (config w) in
  let options := stripMeta emailHTMLMetaName options in
  let postMeta := getEditedPostMeta (editorSelector w) in
  let* _ := apiFetch (saveMetaRequest postType d postMeta) in
  let* response := apiFetch (postMjmlRequest d) in
  let* mjml := settle (mjmlOf response) in
  let* mjml := fixImagesWidth (innerHTMLText mjml) in
  let* html := settle (htmlOf (mjml2html w mjml)) in
  let* _ := apiFetch (saveHtmlRequest postType d emailHTMLMetaName html) in
  next options.

(** The function given to [apiFetch.use]. *)
Definition middleware (options : Options) : Async Response :=
  let data := destructuredData options in
  if negb (bool_decide (method options = Some "POST"))
     && negb (bool_decide (method options = Some "PUT"))
  then next options
  else
    match data with
    | None => throw TypeError
    | Some d =>
        if negb (JS.truthy (content d)) || negb (JS.truthy (id d))
        then next options
        else
          let mjmlHandlingPostTypes := mjml_handling_post_types (config w) in
          match somePostTypeInPath mjmlHandlingPostTypes (path options) with
          | Rejected why => throw why
          | Resolved false => next options
          | Resolved true =>
              let postType := getCurrentPostType (editorSelector w) in
              if negb (Lodash.includes mjmlHandlingPostTypes postType)
              then next options
              else convertAndSave options d postType
          end
    end.

(** A request that gets through the four guards. *)
Definition intercepted (options : Options) : bool :=
  let mjmlHandlingPostTypes := mjml_handling_post_types (config w) in
  (bool_decide (method options = Some "POST")
   || bool_decide (method options = Some "PUT"))
  && match destructuredData options with
     | Some d => JS.truthy (content d) && JS.truthy (id d)
     | None => false
     end
  && match somePostTypeInPath mjmlHandlingPostTypes (path options) with
     | Resolved b => b
     | Rejected _ => false
     end
  && Lodash.includes mjmlHandlingPostTypes (getCurrentPostType (editorSelector w)).

End Middleware.

(** ** Reading the log *)

(** A network call of the middleware's own. *)
Definition isApiFetch (e : Event) : bool :=
  match e with EvApiFetch _ _ => true | _ => false end.

(** The request handed on to [next]. *)
Definition isNext (e : Event) : bool :=
  match e with EvNext _ _ => true | _ => false end.

(** A step, network call or image load, that rejected. *)
Definition failedStep (e : Event) : bool :=
  match e with
  | EvApiFetch _ None | EvImage _ None => true
  | _ => false
  end.

(** The number of network calls of its own the middleware logged. *)
Definition networkCalls (log : list Event) : nat :=
  length (List.filter isApiFetch log).

(** A logged image load that fired [onload]. *)
Definition successfulLoad (e : Event) : Prop :=
  ∃ src size, e = EvImage src (Some size).

(** The runs of [convertAndSave] from the log [h]: the calls it adds to the
    log and the way it settles. *)
Inductive Run (w : World) (options : Options) (d : Data) (h : list Event)
  : list Event → Outcome Response → Prop :=
| RunMetaRejected :
    let postType := getCurrentPostType (editorSelector w) in
    let req1 := saveMetaRequest postType d (getEditedPostMeta (editorSelector w)) in
    server w h req1 = None →
    Run w options d h [EvApiFetch req1 None] (Rejected (FetchRejected req1))
| RunMjmlRejected r1 :
    let postType := getCurrentPostType (editorSelector w) in
    let req1 := saveMetaRequest postType d (getEditedPostMeta (editorSelector w)) in
    let req2 := postMjmlRequest d in
    let h1 := h ++ [EvApiFetch req1 (Some r1)] in
    server w h req1 = Some r1 →
    server w h1 req2 = None →
    Run w options d h
      [EvApiFetch req1 (Some r1); EvApiFetch req2 None]
      (Rejected (FetchRejected req2))
| RunAnswerUnread r1 r2 why :
    let postType := getCurrentPostType (editorSelector w) in
    let req1 := saveMetaRequest postType d (getEditedPostMeta (editorSelector w)) in
    let req2 := postMjmlRequest d in
    let h1 := h ++ [EvApiFetch req1 (Some r1)] in
    server w h req1 = Some r1 →
    server w h1 req2 = Some r2 →
    mjmlOf r2 = Rejected why →
    Run w options d h
      [EvApiFetch req1 (Some r1); EvApiFetch req2 (Some r2)]
      (Rejected why)
| RunImageRejected r1 r2 mjml pre src :
    let postType := getCurrentPostType (editorSelector w) in
    let req1 := saveMetaRequest postType d (getEditedPostMeta (editorSelector w)) in
    let req2 := postMjmlRequest d in
    let h1 := h ++ [EvApiFetch req1 (Some r1)] in
    let h2 := h1 ++ [EvApiFetch req2 (Some r2)] in
    server w h req1 = Some r1 →
    server w h1 req2 = Some r2 →
    mjmlOf r2 = Resolved mjml →
    fixImagesWidth w (innerHTMLText mjml) h2
      = (h2 ++ pre ++ [EvImage src None], Rejected (ImageError src)) →
    Forall successfulLoad pre →
    Run w options d h
      ([EvApiFetch req1 (Some r1); EvApiFetch req2 (Some r2)]
         ++ pre ++ [EvImage src None])
      (Rejected (ImageError src))
| RunConversionRejected r1 r2 mjml imgs patched :
    let postType := getCurrentPostType (editorSelector w) in
    let req1 := saveMetaRequest postType d (getEditedPostMeta (editorSelector w)) in
    let req2 := postMjmlRequest d in
    let h1 := h ++ [EvApiFetch req1 (Some r1)] in
    let h2 := h1 ++ [EvApiFetch req2 (Some r2)] in
    server w h req1 = Some r1 →
    server w h1 req2 = Some r2 →
    mjmlOf r2 = Resolved mjml →
    fixImagesWidth w (innerHTMLText mjml) h2 = (h2 ++ imgs, Resolved patched) →
    Forall successfulLoad imgs →
    mjml2html w patched = None →
    Run w options d h
      ([EvApiFetch req1 (Some r1); EvApiFetch req2 (Some r2)] ++ imgs)
      (Rejected ConversionError)
| RunHtmlRejected r1 r2 mjml imgs patched html :
    let postType := getCurrentPostType (editorSelector w) in
    let req1 := saveMetaRequest postType d (getEditedPostMeta (editorSelector w)) in
    let req2 := postMjmlRequest d in
    let req3 := saveHtmlRequest postType d (email_html_meta (config w)) html in
    let h1 := h ++ [EvApiFetch req1 (Some r1)] in
    let h2 := h1 ++ [EvApiFetch req2 (Some r2)] in
    server w h req1 = Some r1 →
    server w h1 req2 = Some r2 →
    mjmlOf r2 = Resolved mjml →
    fixImagesWidth w (innerHTMLText mjml) h2 = (h2 ++ imgs, Resolved patched) →
    Forall successfulLoad imgs →
    mjml2html w patched = Some html →
    server w (h2 ++ imgs) req3 = None →
    Run w options d h
      ([EvApiFetch req1 (Some r1); EvApiFetch req2 (Some r2)]
         ++ imgs ++ [EvApiFetch req3 None])
      (Rejected (FetchRejected req3))
| RunForwarded r1 r2 mjml imgs patched html r3 :
    let postType := getCurrentPostType (editorSelector w) in
    let req1 := saveMetaRequest postType d (getEditedPostMeta (editorSelector w)) in
    let req2 := postMjmlRequest d in
    let req3 := saveHtmlRequest postType d (email_html_meta (config w)) html in
    let forwarded := stripMeta (email_html_meta (config w)) options in
    let h1 := h ++ [EvApiFetch req1 (Some r1)] in
    let h2 := h1 ++ [EvApiFetch req2 (Some r2)] in
    let h3 := (h2 ++ imgs) ++ [EvApiFetch req3 (Some r3)] in
    server w h req1 = Some r1 →
    server w h1 req2 = Some r2 →
    mjmlOf r2 = Resolved mjml →
    fixImagesWidth w (innerHTMLText mjml) h2 = (h2 ++ imgs, Resolved patched) →
    Forall successfulLoad imgs →
    mjml2html w patched = Some html →
    server w (h2 ++ imgs) req3 = Some r3 →
    Run w options d h
      ([EvApiFetch req1 (Some r1); EvApiFetch req2 (Some r2)]
         ++ imgs ++ [EvApiFetch req3 (Some r3); EvNext forwarded (chain w h3 forwarded)])
      (match chain w h3 forwarded with
       | Some response => Resolved response
       | None => Rejected (NextRejected forwarded)
       end).

(** ** More ways to read a fragment and a log *)

(** An element the loop of [fixImagesWidth] loads an image for: an
    [mj-image] whose [width] is missing or empty. *)
Definition needsWidth (e : Element) : bool :=
  String.eqb (tagName e) mj_image && negb (attrTruthy (getAttribute e "width")).

(** The [src] the loop hands to the loader for an element it reaches: none
    when the element has a [width]. *)
Definition pendingSrc (e : Element) : option string :=
  if attrTruthy (getAttribute e "width") then None
  else Some (srcString (getAttribute e "src")).

(** The [src] values handed to the image loader, in the order of the log. *)
Definition loadedSrcs (log : list Event) : list string :=
  omap (fun e => match e with EvImage src _ => Some src | _ => None end) log.

(** The log without what was handed to [next]. *)
Definition ownCalls (log : list Event) : list Event :=
  List.filter (fun e => negb (isNext e)) log.

(** The call a rejection comes from; none for what the middleware throws
    itself. *)
Definition rejectedBy (why : Rejection) : option Event :=
  match why with
  | FetchRejected o => Some (EvApiFetch o None)
  | ImageError src => Some (EvImage src None)
  | NextRejected o => Some (EvNext o None)
  | TypeError | ConversionError => None
  end.

(** ** A concrete world *)

Module Demo.

Definition newsletter : string := "newspack_nl_cpt".

(** The double quote the serializer puts around attribute values. *)
Definition quote : string := String "034"%char "".

(** The tree of a fragment, flattened: start tag and end tag of the element
    at a position, and text. *)
Inductive Token :=
| Open (i : nat)
| Close (i : nat)
| Text (s : string).

(** The document the server makes of the newsletter. *)
Definition markup : string :=
  "<mjml><mj-body><mj-section><mj-column><mj-image src='a.png'></mj-image><mj-image width='50' src='b.png'></mj-image></mj-column></mj-section></mj-body></mjml>".

Definition document : list Token :=
  [ Open 0; Open 1; Open 2; Open 3; Open 4; Close 4; Open 5; Close 5;
    Close 3; Close 2; Close 1; Close 0 ].

Definition parsedMarkup : Fragment (list Token) :=
  mkFragment document
    [ mkElement "mjml" [];
      mkElement "mj-body" [];
      mkElement "mj-section" [];
      mkElement "mj-column" [];
      mkElement "mj-image" [("src", "a.png")];
      mkElement "mj-image" [("width", "50"); ("src", "b.png")] ].

(** The same document once the first image has its width. *)
Definition patchedMarkup : Fragment (list Token) :=
  mkFragment document
    [ mkElement "mjml" [];
      mkElement "mj-body" [];
      mkElement "mj-section" [];
      mkElement "mj-column" [];
      mkElement "mj-image" [("src", "a.png"); ("width", "600")];
      mkElement "mj-image" [("width", "50"); ("src", "b.png")] ].

Definition showAttr (a : string * string) : string :=
  " " +:+ a.1 +:+ "=" +:+ quote +:+ a.2 +:+ quote.

Definition showToken (els : list Element) (t : Token) : string :=
  match t with
  | Open i =>
      match els !! i with
      | Some e => "<" +:+ tagName e +:+ String.concat "" (map showAttr (attributes e)) +:+ ">"
      | None => ""
      end
  | Close i =>
      match els !! i with
      | Some e => "</" +:+ tagName e +:+ ">"
      | None => ""
      end
  | Text s => s
  end.

(** The serializer; the values and texts used here need no escaping. *)
Definition serialize (f : Fragment (list Token)) : string :=
  String.concat "" (map (showToken (elements f)) (skeleton f)).

(** What the serializer makes of the patched document. *)
Definition patched : string :=
  "<mjml><mj-body><mj-section><mj-column><mj-image"
    +:+ showAttr ("src", "a.png") +:+ showAttr ("width", "600")
    +:+ "></mj-image><mj-image"
    +:+ showAttr ("width", "50") +:+ showAttr ("src", "b.png")
    +:+ "></mj-image></mj-column></mj-section></mj-body></mjml>".

Definition emptyWidthMarkup : string := "<mj-image width='' src='a.png'>".

(** The parser, on the markups used here; a text without markup is one text
    node. *)
Definition parse (s : string) : Fragment (list Token) :=
  if String.eqb s markup then parsedMarkup
  else if String.eqb s patched then patchedMarkup
  else if String.eqb s emptyWidthMarkup then
    mkFragment [Open 0; Close 0] [ mkElement "mj-image" [("width", ""); ("src", "a.png")] ]
  else mkFragment [Text s] [].

Definition images (_ : list Event) (src : string) : option Size :=
  if String.eqb src "a.png" then Some (mkSize 600 400)
  else if String.eqb src "b.png" then Some (mkSize 320 200)
  else None.

(** The email the converter makes of the patched document, cut short. *)
Definition email : string :=
  "<!doctype html><html><body><img src='a.png' width='600'><img src='b.png' width='50'></body></html>".

(** The converter on the one document it is given here, the patched one;
    for any other text this table has it throw, as the converter does on a
    text that is no MJML document. *)
Definition convert (mjml : string) : option string :=
  if String.eqb mjml patched then Some email else None.

Definition backend (_ : list Event) (o : Options) : option Response :=
  if bool_decide (path o = Some postMjmlPath)
  then Some (Object {[ "mjml" := JS.Str markup ]})
  else Some (Object ∅).

(** What [next] answers in this world. *)
Definition answer : Response := Object {[ "id" := JS.Num 7 ]}.

Definition saved (_ : list Event) (_ : Options) : option Response := Some answer.

Definition editedMeta : gmap string JS.value :=
  {[ "is_public" := JS.Bool true; "font_body" := JS.Str "Georgia" ]}.

Definition world : World :=
  mkWorld (list Token) parse serialize images convert backend saved
    (mkEditorData [newsletter] "newspack_email_html")
    (mkEditorSelector newsletter (Some editedMeta)).

(** The same world with every image broken. *)
Definition brokenImages : World :=
  mkWorld (list Token) parse serialize (fun _ _ => None)
    convert backend saved (config world) (editorSelector world).

(** The same page with a post of another type in the editor. *)
Definition otherEditor : World :=
  mkWorld (list Token) parse serialize images convert backend saved
    (config world) (mkEditorSelector "post" None).

Definition payloadMeta : gmap string JS.value :=
  {[ "is_public" := JS.Bool false;
     "campaign" := JS.Str "spring";
     "newspack_email_html" := JS.Str "<old>" ]}.

Definition payload : Data :=
  mkData (JS.Str "<p>Hello</p>") (JS.Num 7) (JS.Str "Issue 1") JS.Undefined
    (Some payloadMeta) ∅.

(** The save request of newsletter 7. *)
Definition save : Options :=
  mkOptions (Some "POST") (Some "/wp/v2/newspack_nl_cpt/7") (Given payload) ∅.

(** The same update addressed by [url] instead of [path]. *)
Definition saveByUrl : Options :=
  mkOptions (Some "POST") None (Given payload)
    {[ "url" := JS.Str "https://example.org/wp-json/wp/v2/newspack_nl_cpt/7" ]}.

End Demo.

(** ** More concrete worlds *)

Module Scenarios.

(** The page of [Demo] with no post type handled. *)
Definition noTypes : World :=
  mkWorld (list Demo.Token) Demo.parse Demo.serialize Demo.images Demo.convert
    Demo.backend Demo.saved
    (mkEditorData [] "newspack_email_html") (editorSelector Demo.world).

(** The page of [Demo] with a server that answers the conversion request
    with the body [null]. *)
Definition nullAnswer : World :=
  mkWorld (list Demo.Token) Demo.parse Demo.serialize Demo.images Demo.convert
    (fun _ o =>
       if bool_decide (path o = Some postMjmlPath)
       then Some (Primitive JS.Null) else Some (Object ∅))
    Demo.saved (config Demo.world) (editorSelector Demo.world).

(** An update of the same newsletter sent with [PUT], to another path and
    with other meta. *)
Definition update : Options :=
  mkOptions (Some "PUT") (Some "/wp/v2/newspack_nl_cpt/7?context=edit")
    (Given (mkData (content Demo.payload) (id Demo.payload) (title Demo.payload)
              JS.Undefined (Some {[ "campaign" := JS.Str "autumn" ]})
              {[ "status" := JS.Str "draft" ]}))
    ∅.

(** An update with [data: null]. *)
Definition nullUpdate : Options :=
  mkOptions (Some "POST") (Some "/wp/v2/newspack_nl_cpt/7") IsNull ∅.

End Scenarios.

(** ** Facts about the helpers *)

Section Helpers.

Implicit Types (m : gmap string JS.value) (ks : list string) (k : string).

Lemma lookup_omit m ks k :
  Lodash.omit m ks !! k = if decide (k ∈ ks) then None else m !! k.
Proof.
  unfold Lodash.omit. revert m.
  induction ks as [|k0 ks IH]; intros m; cbn [foldl].
  - rewrite decide_False; [done | apply not_elem_of_nil].
  - rewrite IH. destruct (decide (k ∈ ks)) as [Hin|Hout].
    + rewrite decide_True; [done | by right].
    + destruct (decide (k = k0)) as [->|Hne].
      * rewrite lookup_delete_eq, decide_True; [done | by left].
      * rewrite lookup_delete_ne by done.
        rewrite decide_False; [done | by intros [?|?]%elem_of_cons].
Qed.

Lemma lookup_pick_fold (o : gmap string JS.value) ks (acc : gmap string JS.value) k :
  foldl (fun (result : gmap string JS.value) k' =>
           match o !! k' with
           | Some v => <[ k' := v ]> result
           | None => result
           end) acc ks !! k
  = if decide (k ∈ ks) then
      match o !! k with Some v => Some v | None => acc !! k end
    else acc !! k.
Proof.
  revert acc. induction ks as [|k0 ks IH]; intros acc; cbn [foldl].
  - rewrite decide_False; [done | apply not_elem_of_nil].
  - rewrite IH. destruct (decide (k ∈ ks)) as [Hin|Hout].
    + rewrite decide_True by (by right).
      destruct (o !! k) eqn:Hk; [done |].
      destruct (o !! k0) eqn:Hk0; [| done].
      rewrite lookup_insert_ne; [done | congruence].
    + destruct (decide (k = k0)) as [->|Hne].
      * rewrite decide_True by (by left).
        destruct (o !! k0) eqn:Hk0; [by rewrite lookup_insert_eq | done].
      * rewrite decide_False by (by intros [?|?]%elem_of_cons).
        destruct (o !! k0); [by rewrite lookup_insert_ne | done].
Qed.

Lemma lookup_pick (object : option (gmap string JS.value)) ks k :
  Lodash.pick object ks !! k
  = if decide (k ∈ ks) then object ≫= (.!! k) else None.
Proof.
  destruct object as [o|]; simpl.
  - rewrite lookup_pick_fold, lookup_empty.
    destruct (decide (k ∈ ks)); [by destruct (o !! k) | done].
  - rewrite lookup_empty. by destruct (decide (k ∈ ks)).
Qed.

Lemma lookupAttr_update_eq attrs name v :
  lookupAttr (updateAttr attrs name v) name = Some v.
Proof.
  induction attrs as [|[k v0] attrs IH]; simpl.
  - by rewrite String.eqb_refl.
  - destruct (String.eqb k name) eqn:E; simpl; rewrite E; done.
Qed.

Lemma lookupAttr_update_ne attrs name name' v :
  name ≠ name' →
  lookupAttr (updateAttr attrs name v) name' = lookupAttr attrs name'.
Proof.
  intros Hne. induction attrs as [|[k v0] attrs IH]; simpl.
  - destruct (String.eqb name name') eqn:E; [| done].
    by apply String.eqb_eq in E.
  - destruct (String.eqb k name) eqn:E; simpl.
    + apply String.eqb_eq in E as ->.
      destruct (String.eqb name name') eqn:E'; [| done].
      by apply String.eqb_eq in E'.
    + by rewrite IH.
Qed.

Lemma getAttribute_set_eq e name v :
  getAttribute (setAttribute e name v) name = Some v.
Proof. apply lookupAttr_update_eq. Qed.

Lemma getAttribute_set_ne e name name' v :
  name ≠ name' →
  getAttribute (setAttribute e name v) name' = getAttribute e name'.
Proof. apply lookupAttr_update_ne. Qed.

Lemma tagName_set e name v : tagName (setAttribute e name v) = tagName e.
Proof. done. Qed.

End Helpers.

(** ** The image loop *)

Section ImageLoop.

Variable w : World.

Lemma elem_of_matching selector els i j :
  j ∈ matching selector els i ↔
  (i ≤ j)%nat ∧ ∃ e, els !! (j - i)%nat = Some e ∧ tagName e = selector.
Proof.
  revert i. induction els as [|e0 els IH]; intros i; simpl.
  - split; [by intros ?%elem_of_nil | by intros (_ & e & ? & _)].
  - assert (Hstep : j ∈ matching selector els (S i) ↔
                    (i < j)%nat ∧ ∃ e, (e0 :: els) !! (j - i)%nat = Some e ∧ tagName e = selector).
    { rewrite IH. split.
      - intros (Hle & e & He & Ht). split; [lia |]. exists e. split; [| done].
        replace (j - i) with (S (j - S i)) by lia. done.
      - intros (Hlt & e & He & Ht). split; [lia |]. exists e. split; [| done].
        replace (j - i) with (S (j - S i)) in He by lia. done. }
    destruct (String.eqb (tagName e0) selector) eqn:E.
    + apply String.eqb_eq in E. rewrite elem_of_cons, Hstep. split.
      * intros [->|(Hlt & He)]; [| split; [lia | done]].
        split; [lia |]. exists e0. by rewrite Nat.sub_diag.
      * intros (Hle & e & He & Ht).
        destruct (decide (j = i)) as [->|Hne]; [by left | right].
        split; [lia | eauto].
    + apply String.eqb_neq in E. rewrite Hstep. split.
      * intros (Hlt & He). split; [lia | done].
      * intros (Hle & e & He & Ht).
        destruct (decide (j = i)) as [->|Hne].
        -- rewrite Nat.sub_diag in He. simpl in He. congruence.
        -- split; [lia | eauto].
Qed.

Lemma NoDup_matching selector els i : NoDup (matching selector els i).
Proof.
  revert i. induction els as [|e0 els IH]; intros i; simpl.
  - constructor.
  - destruct (String.eqb (tagName e0) selector); [| apply IH].
    constructor; [| apply IH].
    rewrite elem_of_matching. intros [Hle _]. lia.
Qed.

Lemma matching_in_range selector els :
  Forall (fun i => (i < length els)%nat) (matching selector els 0).
Proof.
  apply Forall_forall. intros j (_ & e & He & _)%elem_of_matching.
  rewrite Nat.sub_0_r in He. by eapply lookup_lt_Some.
Qed.

(** A loop that resolved: every load it logged succeeded, and the elements
    are the ones it started from, with the width set on the listed ones
    that had none. *)
Lemma fixImagesLoop_resolved images :
  ∀ dom h h' dom',
    NoDup images →
    fixImagesLoop w images dom h = (h', Resolved dom') →
    ∃ imgs,
      h' = h ++ imgs ∧ Forall successfulLoad imgs ∧
      length dom' = length dom ∧
      (∀ j e, dom !! j = Some e →
              j ∉ images ∨ attrTruthy (getAttribute e "width") = true →
              dom' !! j = Some e) ∧
      (∀ j e, dom !! j = Some e → j ∈ images →
              attrTruthy (getAttribute e "width") = false →
              ∃ size, EvImage (srcString (getAttribute e "src")) (Some size) ∈ imgs ∧
                      dom' !! j = Some (setAttribute e "width" (pretty (width size)))).
Proof.
  induction images as [|i images IH]; intros dom h h' dom' Hnd Hrun; simpl in Hrun.
  - injection Hrun as <- <-. exists []. rewrite app_nil_r.
    repeat split; [constructor | done |].
    intros j e _ Hin. by apply elem_of_nil in Hin.
  - apply NoDup_cons in Hnd as [Hi Hnd].
    destruct (dom !! i) as [element|] eqn:Hel; [| discriminate].
    destruct (attrTruthy (getAttribute element "width")) eqn:Hw; simpl in Hrun.
    + destruct (IH _ _ _ _ Hnd Hrun) as (imgs & -> & Hok & Hlen & Hsame & Hset).
      exists imgs. repeat split; [done .. | |].
      * intros j e He [Hj|Hj].
        -- apply Hsame; [done | left]. intros ?. apply Hj. by right.
        -- apply Hsame; [done | by right].
      * intros j e He [->|Hj]%elem_of_cons Hf; [congruence |]. by apply Hset.
    + unfold await, getImageSize in Hrun.
      destruct (loader w h (srcString (getAttribute element "src"))) as [size|] eqn:Hload;
        [| discriminate].
      assert (Hlt : i < length dom) by (by eapply lookup_lt_Some).
      destruct (IH _ _ _ _ Hnd Hrun) as (imgs & -> & Hok & Hlen & Hsame & Hset).
      exists (EvImage (srcString (getAttribute element "src")) (Some size) :: imgs).
      rewrite <- app_assoc. repeat split.
      * constructor; [by eexists _, _ | done].
      * by rewrite Hlen, length_insert.
      * intros j e He [Hj|Hj].
        -- apply Hsame; [| left; intros ?; apply Hj; by right].
           rewrite list_lookup_insert_ne; [done |]. intros ->. apply Hj. by left.
        -- destruct (decide (j = i)) as [->|Hne]; [congruence |].
           apply Hsame; [| by right]. by rewrite list_lookup_insert_ne.
      * intros j e He [->|Hj]%elem_of_cons Hf.
        -- assert (e = element) as -> by congruence.
           exists size. split; [by left |].
           apply Hsame; [| by left]. by rewrite list_lookup_insert_eq.
        -- assert (j ≠ i) by (intros ->; done).
           destruct (Hset j e) as (size' & Hin & Hj'); [| done | done |].
           ++ by rewrite list_lookup_insert_ne.
           ++ exists size'. split; [by right | done].
Qed.

(** A loop that rejected: the load it logged last fired [onerror], the
    ones before it succeeded. *)
Lemma fixImagesLoop_rejected images :
  ∀ dom h h' why,
    Forall (fun i => (i < length dom)%nat) images →
    fixImagesLoop w images dom h = (h', Rejected why) →
    ∃ pre src,
      h' = h ++ pre ++ [EvImage src None] ∧ Forall successfulLoad pre ∧
      why = ImageError src.
Proof.
  induction images as [|i images IH]; intros dom h h' why Hrange Hrun; simpl in Hrun.
  - discriminate.
  - apply Forall_cons in Hrange as [Hi Hrange].
    destruct (lookup_lt_is_Some_2 dom i Hi) as [element Hel]. rewrite Hel in Hrun.
    destruct (attrTruthy (getAttribute element "width")) eqn:Hw; simpl in Hrun.
    + by apply (IH _ _ _ _ Hrange Hrun).
    + unfold await, getImageSize in Hrun.
      destruct (loader w h (srcString (getAttribute element "src"))) as [size|] eqn:Hload.
      * destruct (IH _ _ _ _ ltac:(by rewrite length_insert) Hrun)
          as (pre & src & -> & Hok & ->).
        exists (EvImage (srcString (getAttribute element "src")) (Some size) :: pre), src.
        rewrite <- app_assoc. repeat split.
        constructor; [by eexists _, _ | done].
      * injection Hrun as <- <-.
        by exists [], (srcString (getAttribute element "src")).
Qed.

(** With a loader that never fails the loop resolves. *)
Lemma fixImagesLoop_total images :
  ∀ dom h,
    (∀ h0 src, is_Some (loader w h0 src)) →
    Forall (fun i => (i < length dom)%nat) images →
    ∃ h' dom', fixImagesLoop w images dom h = (h', Resolved dom').
Proof.
  induction images as [|i images IH]; intros dom h Hload Hrange; simpl.
  - by eexists _, _.
  - apply Forall_cons in Hrange as [Hi Hrange].
    destruct (lookup_lt_is_Some_2 dom i Hi) as [element ->].
    destruct (attrTruthy (getAttribute element "width")); simpl.
    + by apply IH.
    + unfold await, getImageSize.
      destruct (Hload h (srcString (getAttribute element "src"))) as [size ->].
      apply IH; [done |]. by rewrite length_insert.
Qed.

End ImageLoop.

(** ** The loads of the loop *)

Section LoopFacts.

Variable w : World.

Lemma pretty_N_go_nonempty (x : N) (s : string) : s ≠ "" → pretty_N_go x s ≠ "".
Proof.
  revert s. induction (N.lt_wf_0 x) as [x _ IH]; intros s Hs.
  destruct (decide (x = 0%N)) as [->|Hx]; [by rewrite pretty_N_go_0 |].
  rewrite pretty_N_go_step by lia.
  apply IH; [apply N.div_lt; lia | done].
Qed.

(** A printed number is never the empty string. *)
Lemma pretty_Z_nonempty (n : Z) : pretty n ≠ "".
Proof.
  destruct n as [|p|p]; [done | |done].
  unfold pretty, pretty_Z, pretty, pretty_positive, pretty, pretty_N.
  rewrite decide_False by done.
  rewrite pretty_N_go_step by lia. by apply pretty_N_go_nonempty.
Qed.

(** Over elements that all have a width the loop does nothing. *)
Lemma fixImagesLoop_noop images dom h :
  (∀ i, i ∈ images →
        ∃ e, dom !! i = Some e ∧ attrTruthy (getAttribute e "width") = true) →
  fixImagesLoop w images dom h = (h, Resolved dom).
Proof.
  induction images as [|i images IH]; intros Hall; simpl; [done |].
  destruct (Hall i) as (e & -> & ->); [by left |]. simpl.
  apply IH. intros j Hj. apply Hall. by right.
Qed.

(** An update at a position that is not listed does not change what the
    listed positions have pending. *)
Lemma omap_pending_insert (images : list nat) (dom : list Element) i e :
  i ∉ images →
  omap (fun j => <[i:=e]> dom !! j ≫= pendingSrc) images
  = omap (fun j => dom !! j ≫= pendingSrc) images.
Proof.
  induction images as [|j images IH]; intros Hi; [done |].
  apply not_elem_of_cons in Hi as [Hne Hi].
  cbn [omap list_omap]. rewrite list_lookup_insert_ne by done.
  by rewrite (IH Hi).
Qed.

Lemma omap_pending_cons (dom : list Element) i images element :
  dom !! i = Some element →
  omap (fun j => dom !! j ≫= pendingSrc) (i :: images)
  = if attrTruthy (getAttribute element "width")
    then omap (fun j => dom !! j ≫= pendingSrc) images
    else srcString (getAttribute element "src")
           :: omap (fun j => dom !! j ≫= pendingSrc) images.
Proof.
  intros Hel. cbn [omap list_omap]. rewrite Hel. simpl. unfold pendingSrc at 1.
  by destruct (attrTruthy (getAttribute element "width")).
Qed.

(** Every entry the loop logs is a load, with the answer the loader gave on
    the log as it was then. *)
Lemma fixImagesLoop_answered images :
  ∀ dom h h' out,
    fixImagesLoop w images dom h = (h', out) →
    ∃ new,
      h' = h ++ new ∧
      ∀ pre e post, new = pre ++ e :: post →
                    ∃ src, e = EvImage src (loader w (h ++ pre) src).
Proof.
  induction images as [|i images IH]; intros dom h h' out Hrun; simpl in Hrun.
  - injection Hrun as <- <-. exists []. rewrite app_nil_r. split; [done |].
    intros pre e post Hnew. by destruct pre.
  - destruct (dom !! i) as [element|].
    2: { injection Hrun as <- <-. exists []. rewrite app_nil_r. split; [done |].
         intros pre e post Hnew. by destruct pre. }
    destruct (attrTruthy (getAttribute element "width")); simpl in Hrun;
      [by eapply IH |].
    unfold await, getImageSize in Hrun.
    destruct (loader w h (srcString (getAttribute element "src"))) as [size|] eqn:Hload.
    + destruct (IH _ _ _ _ Hrun) as (new & -> & Hnew).
      exists (EvImage (srcString (getAttribute element "src")) (Some size) :: new).
      rewrite <- app_assoc. split; [done |].
      intros [|a pre] e post Heq; injection Heq as <- Heq.
      * exists (srcString (getAttribute element "src")). by rewrite app_nil_r, Hload.
      * destruct (Hnew _ _ _ Heq) as [src ->]. exists src.
        by rewrite <- app_assoc.
    + injection Hrun as <- <-.
      exists [EvImage (srcString (getAttribute element "src")) None].
      split; [done |].
      intros [|a pre] e post Heq; injection Heq as <- Heq.
      * exists (srcString (getAttribute element "src")). by rewrite app_nil_r, Hload.
      * by destruct pre.
Qed.

(** In a loop that resolved, the load for a listed element without width
    comes after one load for each element listed before it that had none,
    and its width is what the element leaves with. *)
Lemma fixImagesLoop_position before :
  ∀ j after dom h h' dom' e,
    NoDup (before ++ j :: after) →
    fixImagesLoop w (before ++ j :: after) dom h = (h', Resolved dom') →
    dom !! j = Some e →
    attrTruthy (getAttribute e "width") = false →
    ∃ pre size post,
      h' = h ++ pre ++ EvImage (srcString (getAttribute e "src")) (Some size) :: post ∧
      length pre = length (omap (fun i => dom !! i ≫= pendingSrc) before) ∧
      dom' !! j = Some (setAttribute e "width" (pretty (width size))).
Proof.
  induction before as [|b before IH]; intros j after dom h h' dom' e Hnd Hrun He Hw.
  - simpl in Hnd, Hrun. apply NoDup_cons in Hnd as [Hj Hnd].
    rewrite He in Hrun. rewrite Hw in Hrun. simpl in Hrun.
    unfold await, getImageSize in Hrun.
    destruct (loader w h (srcString (getAttribute e "src"))) as [size|];
      [| discriminate].
    destruct (fixImagesLoop_resolved w _ _ _ _ _ Hnd Hrun)
      as (imgs & -> & _ & _ & Hsame & _).
    exists [], size, imgs. rewrite <- app_assoc. split; [done |]. split; [done |].
    apply Hsame; [| by left].
    apply list_lookup_insert_eq. by eapply lookup_lt_Some.
  - simpl in Hnd. apply NoDup_cons in Hnd as [Hb Hnd].
    assert (Hbj : b ≠ j).
    { intros ->. apply Hb, elem_of_app. right. by left. }
    assert (Hbb : b ∉ before).
    { intros Hin. apply Hb, elem_of_app. by left. }
    cbn [app fixImagesLoop] in Hrun.
    destruct (dom !! b) as [eb|] eqn:Heb; [| discriminate].
    rewrite (omap_pending_cons dom b before eb Heb).
    destruct (attrTruthy (getAttribute eb "width")) eqn:Hwb; simpl in Hrun.
    + by apply (IH _ _ _ _ _ _ _ Hnd Hrun).
    + unfold await, getImageSize in Hrun.
      destruct (loader w h (srcString (getAttribute eb "src"))) as [sizeb|];
        [| discriminate].
      destruct (IH _ _ _ _ _ _ e Hnd Hrun) as (pre & size & post & -> & Hlen & Hj);
        [by rewrite list_lookup_insert_ne | done |].
      rewrite omap_pending_insert in Hlen by done.
      exists (EvImage (srcString (getAttribute eb "src")) (Some sizeb) :: pre), size, post.
      rewrite <- app_assoc. split; [done |]. split; [simpl; by rewrite Hlen | done].
Qed.

(** The loads of the loop, read off the elements it started from. *)
Lemma fixImagesLoop_srcs images :
  ∀ dom h h' out,
    NoDup images →
    fixImagesLoop w images dom h = (h', out) →
    ∃ new,
      h' = h ++ new ∧ length (loadedSrcs new) = length new ∧
      match out with
      | Resolved _ => loadedSrcs new = omap (fun i => dom !! i ≫= pendingSrc) images
      | Rejected _ =>
          ∃ rest, omap (fun i => dom !! i ≫= pendingSrc) images = loadedSrcs new ++ rest
      end.
Proof.
  induction images as [|i images IH]; intros dom h h' out Hnd Hrun; simpl in Hrun.
  - injection Hrun as <- <-. exists []. by rewrite app_nil_r.
  - apply NoDup_cons in Hnd as [Hi Hnd].
    destruct (dom !! i) as [element|] eqn:Hel.
    2: { injection Hrun as <- <-. exists []. rewrite app_nil_r.
         split; [done |]. split; [done |]. by eexists. }
    rewrite (omap_pending_cons dom i images element Hel).
    destruct (attrTruthy (getAttribute element "width")) eqn:Hw; simpl in Hrun.
    + by apply IH.
    + unfold await, getImageSize in Hrun.
      destruct (loader w h (srcString (getAttribute element "src"))) as [size|] eqn:Hload.
      * destruct (IH _ _ _ _ Hnd Hrun) as (new & -> & Hlen & Hout).
        exists (EvImage (srcString (getAttribute element "src")) (Some size) :: new).
        rewrite <- app_assoc. split; [done |]. split; [simpl; by rewrite Hlen |].
        rewrite omap_pending_insert in Hout by done.
        destruct out as [dom'|why]; simpl.
        -- by rewrite Hout.
        -- destruct Hout as [rest Hrest]. exists rest. by rewrite Hrest.
      * injection Hrun as <- <-.
        exists [EvImage (srcString (getAttribute element "src")) None].
        split; [done |]. split; [done |]. by eexists.
Qed.

Lemma matching_app selector (l1 l2 : list Element) :
  ∀ i, matching selector (l1 ++ l2) i
       = matching selector l1 i ++ matching selector l2 (i + length l1).
Proof.
  induction l1 as [|e l1 IH]; intros i; simpl.
  - by rewrite Nat.add_0_r.
  - rewrite IH, Nat.add_succ_r. simpl.
    by destruct (String.eqb (tagName e) selector).
Qed.

(** The pending loads of the [mj-image] elements, in document order. *)
Lemma matching_pending els :
  ∀ pre suf : list Element,
    omap (fun i => (pre ++ els ++ suf) !! i ≫= pendingSrc)
      (matching mj_image els (length pre))
    = map (fun e => srcString (getAttribute e "src")) (List.filter needsWidth els).
Proof.
  induction els as [|e els IH]; intros pre suf; [done |].
  specialize (IH (pre ++ [e]) suf).
  rewrite length_app, <- app_assoc in IH. simpl in IH.
  rewrite Nat.add_1_r in IH.
  cbn [matching List.filter]. unfold needsWidth at 1.
  destruct (String.eqb (tagName e) mj_image); simpl; [| exact IH].
  rewrite list_lookup_middle by done. simpl. unfold pendingSrc at 1.
  destruct (attrTruthy (getAttribute e "width")); simpl;
    first [exact IH | f_equal; exact IH].
Qed.

(** The [mj-image] elements split at one of them. *)
Lemma matching_split (els : list Element) i e :
  els !! i = Some e →
  tagName e = mj_image →
  matching mj_image els 0
  = matching mj_image (take i els) 0 ++ i :: matching mj_image (drop (S i) els) (S i).
Proof.
  intros He Ht.
  rewrite <- (take_drop_middle els i e He) at 1.
  rewrite matching_app. simpl.
  rewrite length_take_le by (apply Nat.lt_le_incl; by eapply lookup_lt_Some).
  rewrite Ht. by rewrite String.eqb_refl.
Qed.

Lemma pending_before (els : list Element) i :
  omap (fun k => els !! k ≫= pendingSrc) (matching mj_image (take i els) 0)
  = map (fun e => srcString (getAttribute e "src"))
      (List.filter needsWidth (take i els)).
Proof.
  pose proof (matching_pending (take i els) [] (drop i els)) as H.
  simpl in H. by rewrite take_drop in H.
Qed.

End LoopFacts.

(** ** The runs of the middleware *)

Lemma successfulLoad_not_failed e : successfulLoad e → failedStep e = false.
Proof. by intros (src & size & ->). Qed.

Lemma successfulLoad_not_fetch e : successfulLoad e → isApiFetch e = false.
Proof. by intros (src & size & ->). Qed.

Lemma successfulLoad_not_next e : successfulLoad e → isNext e = false.
Proof. by intros (src & size & ->). Qed.

Lemma loads_no_fetch imgs :
  Forall successfulLoad imgs → List.filter isApiFetch imgs = [].
Proof.
  induction 1 as [|e imgs He _ IH]; [done |].
  simpl. by rewrite (successfulLoad_not_fetch _ He).
Qed.

Lemma loads_all (P : Event → bool) :
  (∀ e, successfulLoad e → P e = false) →
  ∀ imgs, Forall successfulLoad imgs → ∀ e, e ∈ imgs → P e = false.
Proof.
  intros HP imgs Hall e He. apply HP. by eapply Forall_forall in Hall.
Qed.

(** No entry of such a list is a call of [next]. *)
Ltac no_next :=
  repeat first
    [ exact I
    | apply Forall_nil
    | apply Forall_cons; split; [intros _; reflexivity |]
    | apply Forall_app; split
    | eapply Forall_impl;
        [eassumption | intros ? ? _; by apply successfulLoad_not_next] ].


(** The cases of a run, with the names used below. *)
Ltac run_cases HRun :=
  inversion HRun as
    [ ? ? H1
    | r1 ? ? ? ? H1 H2
    | r1 r2 why0 ? ? ? ? H1 H2 Hread
    | r1 r2 mjml pre src ? ? ? ? ? H1 H2 Hread H3 Hok
    | r1 r2 mjml imgs patched ? ? ? ? ? H1 H2 Hread H3 Hok Hconv
    | r1 r2 mjml imgs patched html ? ? ? ? ? ? H1 H2 Hread H3 Hok Hconv H4
    | r1 r2 mjml imgs patched html r3 ? ? ? ? ? ? ? ? H1 H2 Hread H3 Hok Hconv H4 ];
  subst.

Section Runs.

Variable w : World.

Lemma fixImagesWidth_resolved mjml h h' out :
  fixImagesWidth w mjml h = (h', Resolved out) →
  ∃ imgs dom',
    h' = h ++ imgs ∧ Forall successfulLoad imgs ∧
    out = serializeHTML w (mkFragment (skeleton (parseHTML w mjml)) dom') ∧
    fixImagesLoop w (querySelectorAll w (parseHTML w mjml) mj_image)
      (elements (parseHTML w mjml)) h = (h ++ imgs, Resolved dom').
Proof.
  unfold fixImagesWidth, fixImagesFragment, await, resolve. intros Hrun.
  destruct (fixImagesLoop w _ _ h) as [h1 [dom'|why]] eqn:Hloop; [| discriminate].
  injection Hrun as <- <-.
  destruct (fixImagesLoop_resolved w _ _ _ _ _ (NoDup_matching _ _ _) Hloop)
    as (imgs & -> & Hok & _).
  by exists imgs, dom'.
Qed.

Lemma fixImagesWidth_rejected mjml h h' why :
  fixImagesWidth w mjml h = (h', Rejected why) →
  ∃ pre src,
    h' = h ++ pre ++ [EvImage src None] ∧ Forall successfulLoad pre ∧
    why = ImageError src.
Proof.
  unfold fixImagesWidth, fixImagesFragment, await, resolve. intros Hrun.
  destruct (fixImagesLoop w _ _ h) as [h1 [dom'|why']] eqn:Hloop; [discriminate |].
  injection Hrun as <- <-.
  by apply (fixImagesLoop_rejected w _ _ _ _ _ (matching_in_range _ _) Hloop).
Qed.

(** Every entry [fixImagesWidth] logs is a load, with the answer the loader
    gave on the log as it was then. *)
Lemma fixImagesWidth_answered mjml h new out :
  fixImagesWidth w mjml h = (h ++ new, out) →
  ∀ pre e post, new = pre ++ e :: post →
                ∃ src, e = EvImage src (loader w (h ++ pre) src).
Proof.
  unfold fixImagesWidth, fixImagesFragment, await, resolve. intros Hrun.
  destruct (fixImagesLoop w _ _ h) as [h1 out1] eqn:Hloop.
  destruct (fixImagesLoop_answered w _ _ _ _ _ Hloop) as (new1 & -> & Hnew).
  destruct out1; injection Hrun as Heq _; apply app_inv_head in Heq as <-; done.
Qed.

(** Past the guards the middleware is [convertAndSave] on the payload. *)
Lemma middleware_intercepted options :
  intercepted w options = true →
  ∃ d, data options = Given d ∧
       JS.truthy (content d) = true ∧ JS.truthy (id d) = true ∧
       is_Some (path options) ∧
       ∀ h, middleware w options h
            = convertAndSave w options d (getCurrentPostType (editorSelector w)) h.
Proof.
  unfold intercepted, middleware, destructuredData. intros H.
  apply andb_prop in H as [H Hinc]. apply andb_prop in H as [H Hpath].
  apply andb_prop in H as [Hm Hdata].
  destruct (data options) as [| |d] eqn:Hd; [done | done |].
  apply andb_prop in Hdata as [Hc Hi].
  exists d. repeat split; [done .. | |].
  - destruct (path options); [done |].
    by destruct (mjml_handling_post_types (config w)).
  - intros h.
    destruct (bool_decide (method options = Some "POST")),
             (bool_decide (method options = Some "PUT")); try done;
      simpl; rewrite Hc, Hi; simpl;
      destruct (somePostTypeInPath _ _) as [[]|]; try done;
      by destruct (Lodash.includes _ _).
Qed.

(** Every run of [convertAndSave] is one of those of [Run]. *)
Lemma convertAndSave_run options d h :
  ∃ new out,
    convertAndSave w options d (getCurrentPostType (editorSelector w)) h = (h ++ new, out) ∧
    Run w options d h new out.
Proof.
  unfold convertAndSave, await, apiFetch, next, settle.
  destruct (server w h _) as [r1|] eqn:H1; [| eexists _, _; split; [done | by constructor]].
  destruct (server w (h ++ [EvApiFetch _ (Some r1)]) (postMjmlRequest d)) as [r2|] eqn:H2.
  2: { eexists _, _. split; [| by apply RunMjmlRejected]. by rewrite <- app_assoc. }
  destruct (mjmlOf r2) as [mjml|why] eqn:Hread.
  2: { eexists _, _. split; [| by eapply RunAnswerUnread]. by rewrite <- app_assoc. }
  destruct (fixImagesWidth w _ _) as [h3 [patched|why]] eqn:Himg.
  - destruct (fixImagesWidth_resolved _ _ _ _ Himg) as (imgs & dom' & -> & Hok & _ & _).
    destruct (mjml2html w patched) as [html|] eqn:Hconv; simpl.
    2: { eexists _, _. split; [| by eapply RunConversionRejected].
         by rewrite <- !app_assoc. }
    destruct (server w _ (saveHtmlRequest _ _ _ _)) as [r3|] eqn:H3.
    + eexists _, _. split; [| by eapply RunForwarded]. simpl.
      by rewrite <- !app_assoc.
    + eexists _, _. split; [| by eapply RunHtmlRejected]. simpl.
      by rewrite <- !app_assoc.
  - destruct (fixImagesWidth_rejected _ _ _ _ Himg) as (pre & src & -> & Hok & ->).
    eexists _, _. split; [| by eapply RunImageRejected]. simpl.
    by rewrite <- !app_assoc.
Qed.

Lemma middleware_run options :
  intercepted w options = true →
  ∃ d, data options = Given d ∧
    ∀ h, ∃ new out,
      middleware w options h = (h ++ new, out) ∧ Run w options d h new out.
Proof.
  intros (d & Hd & _ & _ & _ & Hmw)%middleware_intercepted.
  exists d. split; [done |]. intros h. rewrite Hmw. apply convertAndSave_run.
Qed.

(** The run that led to a given log and outcome. *)
Lemma middleware_run_inv options h new out :
  intercepted w options = true →
  middleware w options h = (h ++ new, out) →
  ∃ d, data options = Given d ∧ Run w options d h new out.
Proof.
  intros (d & Hd & Hruns)%middleware_run Hrun.
  destruct (Hruns h) as (new0 & out0 & Hrun0 & HRun).
  rewrite Hrun in Hrun0. injection Hrun0 as Hnew ->.
  apply app_inv_head in Hnew as ->. eauto.
Qed.

End Runs.

(** ** What a run logs *)

Section Logs.

Variable w : World.

Lemma quiet_before_images o1 r1 o2 r2 imgs :
  Forall successfulLoad imgs →
  Forall (fun e => isNext e = false ∧ failedStep e = false)
    ([EvApiFetch o1 (Some r1); EvApiFetch o2 (Some r2)] ++ imgs).
Proof.
  intros Hok. repeat constructor.
  eapply Forall_impl; [exact Hok |].
  intros e He. split; [by apply successfulLoad_not_next | by apply successfulLoad_not_failed].
Qed.

(** How a run ends: at a call that rejected, which is the last entry and
    the reason; or on an error of the middleware's own, after calls that
    all succeeded; or at [next], the last entry, whose outcome it takes. *)
Lemma run_endings options d h new out :
  Run w options d h new out →
  (∃ pre e why,
      new = pre ++ [e] ∧ failedStep e = true ∧ isNext e = false ∧
      out = Rejected why ∧ rejectedBy why = Some e ∧
      Forall (fun e' => isNext e' = false ∧ failedStep e' = false) pre)
  ∨ (∃ why,
       out = Rejected why ∧ rejectedBy why = None ∧
       Forall (fun e' => isNext e' = false ∧ failedStep e' = false) new)
  ∨ (∃ pre o r,
       new = pre ++ [EvNext o r] ∧
       out = match r with
             | Some response => Resolved response
             | None => Rejected (NextRejected o)
             end ∧
       Forall (fun e' => isNext e' = false ∧ failedStep e' = false) pre).
Proof.
  intros HRun. run_cases HRun.
  - left. exists [], (EvApiFetch req1 None), (FetchRejected req1).
    repeat split. constructor.
  - left.
    exists [EvApiFetch req1 (Some r1)], (EvApiFetch req2 None), (FetchRejected req2).
    repeat split. by repeat constructor.
  - right. left. exists why0. split; [done |]. split.
    + destruct r2 as [fields|[]]; simpl in Hread; try discriminate;
        by injection Hread as <-.
    + by repeat constructor.
  - left.
    exists ([EvApiFetch req1 (Some r1); EvApiFetch req2 (Some r2)] ++ pre),
      (EvImage src None), (ImageError src).
    split; [by rewrite <- app_assoc |]. repeat split.
    by apply quiet_before_images.
  - right. left. exists ConversionError. split; [done |]. split; [done |].
    by apply quiet_before_images.
  - left.
    exists ([EvApiFetch req1 (Some r1); EvApiFetch req2 (Some r2)] ++ imgs),
      (EvApiFetch req3 None), (FetchRejected req3).
    split; [by rewrite <- app_assoc |]. repeat split.
    by apply quiet_before_images.
  - right. right.
    exists (([EvApiFetch req1 (Some r1); EvApiFetch req2 (Some r2)] ++ imgs)
              ++ [EvApiFetch req3 (Some r3)]),
      forwarded, (chain w h3 forwarded).
    split; [by rewrite <- !app_assoc |]. split; [reflexivity |].
    apply Forall_app. split; [by apply quiet_before_images |].
    by repeat constructor.
Qed.

(** The run that reached [next], or resolved. *)
Lemma run_forwarded_inv options d h new out :
  Run w options d h new out →
  (∃ e, e ∈ new ∧ isNext e = true) ∨ (∃ response, out = Resolved response) →
  ∃ r1 r2 mjml imgs patched html r3,
    let postType := getCurrentPostType (editorSelector w) in
    let req1 := saveMetaRequest postType d (getEditedPostMeta (editorSelector w)) in
    let req2 := postMjmlRequest d in
    let req3 := saveHtmlRequest postType d (email_html_meta (config w)) html in
    let forwarded := stripMeta (email_html_meta (config w)) options in
    let h1 := h ++ [EvApiFetch req1 (Some r1)] in
    let h2 := h1 ++ [EvApiFetch req2 (Some r2)] in
    let h3 := (h2 ++ imgs) ++ [EvApiFetch req3 (Some r3)] in
    server w h req1 = Some r1 ∧
    server w h1 req2 = Some r2 ∧
    mjmlOf r2 = Resolved mjml ∧
    fixImagesWidth w (innerHTMLText mjml) h2 = (h2 ++ imgs, Resolved patched) ∧
    Forall successfulLoad imgs ∧
    mjml2html w patched = Some html ∧
    server w (h2 ++ imgs) req3 = Some r3 ∧
    new = [EvApiFetch req1 (Some r1); EvApiFetch req2 (Some r2)]
            ++ imgs ++ [EvApiFetch req3 (Some r3); EvNext forwarded (chain w h3 forwarded)] ∧
    out = match chain w h3 forwarded with
          | Some response => Resolved response
          | None => Rejected (NextRejected forwarded)
          end.
Proof.
  intros HRun Hnext. run_cases HRun.
  all: try by eexists r1, r2, mjml, imgs, patched, html, r3.
  all: exfalso; destruct Hnext as [(e & He & Hne)|(response & Hres)];
         [| discriminate].
  all: assert (Hnone : isNext e = false); [| congruence].
  all: revert e He Hne;
    apply (Forall_forall (fun e => isNext e = true → isNext e = false)); no_next.
Qed.

(** The guards: a request that fails one of them goes to [next] as it is,
    and that is all that happens. *)
Lemma middleware_passes_through options h :
  let types := mjml_handling_post_types (config w) in
  (method options ≠ Some "POST" ∧ method options ≠ Some "PUT")
  ∨ (∃ d, destructuredData options = Some d ∧
          ((JS.truthy (content d) = false ∨ JS.truthy (id d) = false)
           ∨ ∃ p, path options = Some p ∧
                  ((∀ postType, postType ∈ types → JS.indexOf p postType = None)
                   ∨ getCurrentPostType (editorSelector w) ∉ types))) →
  middleware w options h = next w options h.
Proof.
  intros types H. unfold middleware. fold types.
  destruct (bool_decide (method options = Some "POST")) eqn:Epost;
    destruct (bool_decide (method options = Some "PUT")) eqn:Eput; simpl;
    try (apply bool_decide_eq_true in Epost);
    try (apply bool_decide_eq_true in Eput);
    try (apply bool_decide_eq_false in Epost);
    try (apply bool_decide_eq_false in Eput);
    [| | | done].
  all: destruct H as [[H1 H2]|(d & -> & H)]; [congruence |].
  all: destruct (JS.truthy (content d)) eqn:Ec; [| done].
  all: destruct (JS.truthy (id d)) eqn:Ei; [| done].
  all: simpl.
  all: destruct H as [[H|H]|(p & Hp & H)]; try congruence.
  all: rewrite Hp; unfold somePostTypeInPath.
  all: destruct types as [|t types'] eqn:Et; [done |].
  all: rewrite <- Et in *.
  all: destruct (existsb _ types) eqn:Eex; [| done].
  all: destruct H as [H|H].
  all: try (apply existsb_exists in Eex as (t0 & Hin & Hsome);
            apply bool_decide_eq_true in Hsome as [n Hn];
            apply list_elem_of_In in Hin; rewrite (H t0 Hin) in Hn; done).
  all: unfold Lodash.includes; by rewrite bool_decide_eq_false_2.
Qed.

(** A request that is not intercepted goes to [next], or makes a property
    read throw: of [data] when it is [null], of [path] when it is not
    there. *)
Lemma not_intercepted_cases options h :
  intercepted w options = false →
  middleware w options h = next w options h
  ∨ middleware w options h = (h, Rejected TypeError).
Proof.
  unfold intercepted, middleware. intros H.
  destruct (bool_decide (method options = Some "POST")),
           (bool_decide (method options = Some "PUT")); simpl in *; auto.
  all: destruct (destructuredData options) as [d|]; [| by right].
  all: destruct (JS.truthy (content d)); simpl in *; auto.
  all: destruct (JS.truthy (id d)); simpl in *; auto.
  all: destruct (somePostTypeInPath _ _) as [[]|why] eqn:Hsome; simpl in *; auto.
  all: try (rewrite H; simpl; auto).
  all: right; unfold throw; do 2 f_equal.
  all: unfold somePostTypeInPath in Hsome.
  all: destruct (mjml_handling_post_types (config w)), (path options); congruence.
Qed.

(** The requests the middleware sends through [apiFetch] come back to it
    and fail its second guard. *)
Lemma own_requests_not_intercepted postType d postMeta name html :
  intercepted w (saveMetaRequest postType d postMeta) = false ∧
  intercepted w (postMjmlRequest d) = false ∧
  intercepted w (saveHtmlRequest postType d name html) = false.
Proof.
  unfold intercepted; simpl. by rewrite !andb_false_r.
Qed.

Lemma stripMeta_meta name options d m :
  data options = Given d → meta d = Some m →
  stripMeta name options =
    mkOptions (method options) (path options)
      (Given (mkData (content d) (id d) (title d) (post_id d)
                (Some (Lodash.omit m (POST_META_WHITELIST ++ [name]))) (rest d)))
      (extra options).
Proof. intros Hd Hm. unfold stripMeta. by rewrite Hd, Hm. Qed.

Lemma stripMeta_no_meta name options d :
  data options = Given d → meta d = None → stripMeta name options = options.
Proof. intros Hd Hm. unfold stripMeta. by rewrite Hd, Hm. Qed.

(** Where an entry of the log of a run that reached [next] lies. *)
Lemma elem_of_forwarded_log (e e1 e2 e3 e4 : Event) imgs :
  e ∈ [e1; e2] ++ imgs ++ [e3; e4] →
  e = e1 ∨ e = e2 ∨ e ∈ imgs ∨ e = e3 ∨ e = e4.
Proof.
  intros [-> | [-> | [He | [-> | ->%list_elem_of_singleton]%elem_of_cons
                             ]%elem_of_app]%elem_of_cons]%elem_of_cons; auto.
Qed.

(** What reaches [next] is the request after the stripping step. *)
Lemma forwarded_is_stripped options h new out o' r :
  intercepted w options = true →
  middleware w options h = (h ++ new, out) →
  EvNext o' r ∈ new →
  o' = stripMeta (email_html_meta (config w)) options.
Proof.
  intros Hin Hrun He.
  destruct (middleware_run_inv w _ _ _ _ Hin Hrun) as (d & Hd & HRun).
  destruct (run_forwarded_inv _ _ _ _ _ HRun)
    as (r1 & r2 & mjml & imgs & patched & html & r3 & _ & _ & _ & _ & Hok & _ & _ & -> & _).
  { left. by exists (EvNext o' r). }
  apply elem_of_forwarded_log in He as [He|[He|[He|[He|He]]]]; try discriminate.
  - pose proof (loads_all isNext successfulLoad_not_next imgs Hok _ He). done.
  - by injection He as -> _.
Qed.

(** The network calls of an intercepted request are the three requests of
    [convertAndSave]. *)
Lemma own_call_cases options h new out o r :
  intercepted w options = true →
  middleware w options h = (h ++ new, out) →
  EvApiFetch o r ∈ new →
  ∃ d, data options = Given d ∧
    (o = saveMetaRequest (getCurrentPostType (editorSelector w)) d
           (getEditedPostMeta (editorSelector w))
     ∨ o = postMjmlRequest d
     ∨ ∃ html, o = saveHtmlRequest (getCurrentPostType (editorSelector w)) d
                     (email_html_meta (config w)) html).
Proof.
  intros Hin Hrun He.
  destruct (middleware_run_inv w _ _ _ _ Hin Hrun) as (d & Hd & HRun).
  exists d. split; [done |].
  pose proof (loads_all isApiFetch successfulLoad_not_fetch) as Hnf.
  assert (Hcases : ∀ imgs last,
             Forall successfulLoad imgs →
             EvApiFetch o r ∈ imgs ++ last → EvApiFetch o r ∈ last).
  { intros imgs0 last Hok0 [Hi|Hl]%elem_of_app; [| done].
    by specialize (Hnf imgs0 Hok0 _ Hi). }
  run_cases HRun; simpl in He.
  all: repeat (apply elem_of_cons in He as [He|He];
               [injection He as -> ->; by (left + (right; left)) |]).
  all: try (by apply elem_of_nil in He).
  all: try (specialize (Hnf _ Hok _ He); done).
  all: apply Hcases in He; [| done].
  all: repeat (apply elem_of_cons in He as [He|He];
               [first [ discriminate
                      | injection He as -> ->; right; right; by eexists ] |]).
  all: by apply elem_of_nil in He.
Qed.

(** The first thing an intercepted request does is the save of the picked
    store meta. *)
Lemma first_call_saves_meta options h new out :
  intercepted w options = true →
  middleware w options h = (h ++ new, out) →
  ∃ d r later,
    data options = Given d ∧
    new = EvApiFetch
            (saveMetaRequest (getCurrentPostType (editorSelector w)) d
               (getEditedPostMeta (editorSelector w))) r :: later.
Proof.
  intros Hin Hrun.
  destruct (middleware_run_inv w _ _ _ _ Hin Hrun) as (d & Hd & HRun).
  exists d. run_cases HRun; simpl; eauto.
Qed.

End Logs.

(** ** The widths of the images *)

Section Widths.

Variable w : World.

Lemma elem_of_querySelectorAll (template : Fragment (Skeleton w)) selector j :
  j ∈ querySelectorAll w template selector ↔
  ∃ e, elements template !! j = Some e ∧ tagName e = selector.
Proof.
  unfold querySelectorAll. rewrite elem_of_matching, Nat.sub_0_r.
  split; [by intros [_ ?] | intros ?; split; [lia | done]].
Qed.

(** [fixImagesWidth] returns the serialization of the fragment. *)
Lemma fixImagesWidth_fragment mjml h h' out :
  fixImagesWidth w mjml h = (h', Resolved out) →
  ∃ frag, fixImagesFragment w mjml h = (h', Resolved frag) ∧
          out = serializeHTML w frag.
Proof.
  unfold fixImagesWidth, await, resolve. intros Hrun.
  destruct (fixImagesFragment w mjml h) as [h1 [frag|why]]; [| discriminate].
  injection Hrun as <- <-. eauto.
Qed.

(** The fragment after the loop, element by element. *)
Lemma fixImagesFragment_resolved mjml h h' frag :
  fixImagesFragment w mjml h = (h', Resolved frag) →
  let input := elements (parseHTML w mjml) in
  ∃ imgs,
    h' = h ++ imgs ∧ Forall successfulLoad imgs ∧
    skeleton frag = skeleton (parseHTML w mjml) ∧
    length (elements frag) = length input ∧
    (∀ j e, input !! j = Some e →
            tagName e ≠ mj_image ∨ attrTruthy (getAttribute e "width") = true →
            elements frag !! j = Some e) ∧
    (∀ j e, input !! j = Some e → tagName e = mj_image →
            attrTruthy (getAttribute e "width") = false →
            ∃ size,
              EvImage (srcString (getAttribute e "src")) (Some size) ∈ imgs ∧
              elements frag !! j
                = Some (setAttribute e "width" (pretty (width size)))).
Proof.
  intros Hrun input. unfold fixImagesFragment, await, resolve in Hrun.
  destruct (fixImagesLoop w _ _ h) as [h1 [dom'|why]] eqn:Hloop; [| discriminate].
  injection Hrun as <- <-.
  destruct (fixImagesLoop_resolved w _ _ _ _ _ (NoDup_matching _ _ _) Hloop)
    as (imgs & -> & Hok & Hlen & Hsame & Hset).
  exists imgs. simpl. repeat split; [done .. | |].
  - intros j e He [Ht|Hw]; apply Hsame; [done | | done | by right].
    left. intros Hj.
    apply (elem_of_querySelectorAll (parseHTML w mjml)) in Hj as (e0 & He0 & Ht0).
    fold input in He0. congruence.
  - intros j e He Ht Hw. apply Hset; [done | | done].
    apply (elem_of_querySelectorAll (parseHTML w mjml)). eauto.
Qed.

(** The load for an [mj-image] without width: where it lies in the log,
    what the loader answered, and what the element leaves with. *)
Lemma fixImagesFragment_position mjml h h' frag i e :
  fixImagesFragment w mjml h = (h', Resolved frag) →
  elements (parseHTML w mjml) !! i = Some e →
  tagName e = mj_image →
  attrTruthy (getAttribute e "width") = false →
  ∃ pre size post,
    h' = h ++ pre ++ EvImage (srcString (getAttribute e "src")) (Some size) :: post ∧
    length pre
      = length (List.filter needsWidth (take i (elements (parseHTML w mjml)))) ∧
    loader w (h ++ pre) (srcString (getAttribute e "src")) = Some size ∧
    elements frag !! i = Some (setAttribute e "width" (pretty (width size))).
Proof.
  intros Hrun He Ht Hw. unfold fixImagesFragment, await, resolve in Hrun.
  destruct (fixImagesLoop w _ _ h) as [h1 [dom'|why]] eqn:Hloop; [| discriminate].
  injection Hrun as <- <-.
  pose proof (NoDup_matching mj_image (elements (parseHTML w mjml)) 0) as Hnd.
  unfold querySelectorAll in Hloop.
  rewrite (matching_split _ _ _ He Ht) in Hloop, Hnd.
  destruct (fixImagesLoop_position w _ _ _ _ _ _ _ _ Hnd Hloop He Hw)
    as (pre & size & post & -> & Hlen & Hi).
  exists pre, size, post. split; [done |]. split.
  { by rewrite Hlen, pending_before, length_map. }
  split; [| done].
  destruct (fixImagesLoop_answered w _ _ _ _ _ Hloop) as (new & Hnew & Hans).
  apply app_inv_head in Hnew as <-.
  destruct (Hans pre _ post eq_refl) as (src & Hsrc).
  by injection Hsrc as <- <-.
Qed.

End Widths.

(** ** The sequence of steps *)

(** C5: a run that resolves went, in this order and each call answered
    before the next is made, through: the save of the allow-listed meta of
    the editor store; the request for the MJML of the payload's content and
    title; the image loads, each answered by the loader, that give every
    [mj-image] without width its width and leave the rest of the parsed
    markup as it was; the conversion of the serialized result to HTML; the
    save of that HTML under the email HTML key; and last the original
    request, stripped, handed to [next], whose answer is the result. *)
Theorem steps_in_order (w : World) (options : Options) (h h' : list Event)
    (response : Response) :
  intercepted w options = true →
  middleware w options h = (h', Resolved response) →
  ∃ d r1 r2 mjml imgs frag html r3,
    let postType := getCurrentPostType (editorSelector w) in
    let name := email_html_meta (config w) in
    let route := "/wp/v2/" +:+ postType +:+ "/" +:+ JS.toString (id d) in
    let req1 :=
      mkOptions (Some "POST") (Some route)
        (Given (mkData JS.Undefined JS.Undefined JS.Undefined JS.Undefined
                  (Some (Lodash.pick (getEditedPostMeta (editorSelector w))
                           POST_META_WHITELIST)) ∅)) ∅ in
    let req2 :=
      mkOptions (Some "POST") (Some "/newspack-newsletters/v1/post-mjml")
        (Given (mkData (content d) JS.Undefined (title d) (id d) None ∅)) ∅ in
    let req3 :=
      mkOptions (Some "POST") (Some route)
        (Given (mkData JS.Undefined JS.Undefined JS.Undefined JS.Undefined
                  (Some {[ name := JS.Str html ]}) ∅)) ∅ in
    let forwarded :=
      match meta d with
      | Some m =>
          mkOptions (method options) (path options)
            (Given (mkData (content d) (id d) (title d) (post_id d)
                      (Some (Lodash.omit m (POST_META_WHITELIST ++ [name])))
                      (rest d)))
            (extra options)
      | None => options
      end in
    let text := match mjml with JS.Null => "" | _ => JS.toString mjml end in
    let input := parseHTML w text in
    let h1 := h ++ [EvApiFetch req1 (Some r1)] in
    let h2 := h1 ++ [EvApiFetch req2 (Some r2)] in
    let h3 := h2 ++ imgs in
    let h4 := h3 ++ [EvApiFetch req3 (Some r3)] in
    data options = Given d ∧
    server w h req1 = Some r1 ∧
    server w h1 req2 = Some r2 ∧
    ((∃ fields, r2 = Object fields ∧ mjml = default JS.Undefined (fields !! "mjml"))
     ∨ (∃ v, r2 = Primitive v ∧ v ≠ JS.Undefined ∧ v ≠ JS.Null ∧ mjml = JS.Undefined)) ∧
    (∀ pre e post, imgs = pre ++ e :: post →
                   ∃ src, e = EvImage src (loader w (h2 ++ pre) src)) ∧
    Forall successfulLoad imgs ∧
    skeleton frag = skeleton input ∧
    length (elements frag) = length (elements input) ∧
    (∀ i e, elements input !! i = Some e → needsWidth e = false →
            elements frag !! i = Some e) ∧
    (∀ i e, elements input !! i = Some e → needsWidth e = true →
            ∃ size,
              EvImage (srcString (getAttribute e "src")) (Some size) ∈ imgs ∧
              elements frag !! i = Some (setAttribute e "width" (pretty (width size)))) ∧
    mjml2html w (serializeHTML w frag) = Some html ∧
    server w h3 req3 = Some r3 ∧
    chain w h4 forwarded = Some response ∧
    h' = h4 ++ [EvNext forwarded (Some response)].
Proof.
  intros Hin Hrun.
  destruct (middleware_run w options Hin) as (d & Hd & Hruns).
  destruct (Hruns h) as (new & out & Hrun' & HRun).
  rewrite Hrun in Hrun'. injection Hrun' as -> <-.
  destruct (run_forwarded_inv w _ _ _ _ _ HRun)
    as (r1 & r2 & mjml & imgs & patched & html & r3
        & H1 & H2 & Hread & H3 & Hok & Hconv & H4 & -> & Hout);
    [right; by eexists |].
  destruct (chain w _ _) as [response'|] eqn:Hnext; [| discriminate].
  injection Hout as ->.
  destruct (fixImagesWidth_fragment w _ _ _ _ H3) as (frag & Hfrag & ->).
  destruct (fixImagesFragment_resolved w _ _ _ _ Hfrag)
    as (imgs' & Himgs & _ & Hsk & Hlen & Hsame & Hset).
  apply app_inv_head in Himgs as <-.
  exists d, r1, r2, mjml, imgs, frag, html, r3. cbv zeta.
  split; [done |]. split; [exact H1 |]. split; [exact H2 |].
  split.
  { destruct r2 as [fields|v]; simpl in Hread.
    - left. exists fields. split; [done |]. by injection Hread as <-.
    - right. exists v. by destruct v; try discriminate; injection Hread as <-. }
  split; [exact (fixImagesWidth_answered w _ _ _ _ H3) |].
  split; [exact Hok |]. split; [exact Hsk |]. split; [exact Hlen |].
  split.
  { intros i e He Hneed. apply (Hsame i e He). unfold needsWidth in Hneed.
    destruct (String.eqb (tagName e) mj_image) eqn:Ht.
    - right. by destruct (attrTruthy (getAttribute e "width")).
    - left. by apply String.eqb_neq. }
  split.
  { intros i e He Hneed. unfold needsWidth in Hneed.
    apply andb_prop in Hneed as [Ht Hw].
    apply String.eqb_eq in Ht. apply negb_true_iff in Hw.
    exact (Hset i e He Ht Hw). }
  split; [exact Hconv |]. split; [exact H4 |].
  assert (Hfwd : stripMeta (email_html_meta (config w)) options
                 = match meta d with
                   | Some m =>
                       mkOptions (method options) (path options)
                         (Given (mkData (content d) (id d) (title d) (post_id d)
                                   (Some (Lodash.omit m
                                            (POST_META_WHITELIST
                                               ++ [email_html_meta (config w)])))
                                   (rest d)))
                         (extra options)
                   | None => options
                   end).
  { unfold stripMeta. rewrite Hd. by destruct (meta d). }
  rewrite <- Hfwd. split; [exact Hnext |]. by rewrite <- !app_assoc.
Qed.

(** C3: when a network call or an image load of an intercepted request
    rejects, the middleware rejects, nothing was handed to [next], and the
    rejected step is the last thing that happened: the calls answered before
    it stay as they were made and nothing is sent after it. *)
Theorem failed_step_aborts (w : World) (options : Options) (h new : list Event)
    (out : Outcome Response) :
  intercepted w options = true →
  middleware w options h = (h ++ new, out) →
  (∃ e, e ∈ new ∧ failedStep e = true) →
  (∃ why, out = Rejected why) ∧
  (∀ e, e ∈ new → isNext e = false) ∧
  ∃ pre e, new = pre ++ [e] ∧ failedStep e = true ∧
           ∀ e', e' ∈ pre → failedStep e' = false.
Proof.
  intros Hin Hrun (e & He & Hfail).
  destruct (middleware_run_inv w _ _ _ _ Hin Hrun) as (d & Hd & HRun).
  destruct (run_endings w _ _ _ _ _ HRun)
    as [(pre & e0 & why & -> & Hf & Hn & -> & _ & Hq)
       |[(why & _ & _ & Hq)|(pre & o & r & -> & _ & Hq)]].
  - split; [by eexists |]. split.
    + intros e' [He'| ->%list_elem_of_singleton]%elem_of_app; [| done].
      by eapply Forall_forall in Hq as [? _].
    + exists pre, e0. split; [done |]. split; [done |].
      intros e' He'. by eapply Forall_forall in Hq as [_ ?].
  - exfalso. eapply Forall_forall in Hq as [_ Hq]; [| exact He]. congruence.
  - exfalso. apply elem_of_app in He as [He| ->%list_elem_of_singleton]; [| done].
    eapply Forall_forall in Hq as [_ Hq]; [| exact He]. congruence.
Qed.

(** C6, as amended: a run that reaches [next] has made exactly three network
    calls of its own before it, all answered: the save of the allow-listed
    meta of the editor store, the request for the MJML of the content, and
    the save of the email HTML under its meta key. *)
Theorem three_calls_before_forwarding (w : World) (options : Options)
    (h new : list Event) (out : Outcome Response) :
  intercepted w options = true →
  middleware w options h = (h ++ new, out) →
  (∃ e, e ∈ new ∧ isNext e = true) →
  ∃ d pre o r r1 r2 r3 html,
    let postType := getCurrentPostType (editorSelector w) in
    let route := "/wp/v2/" +:+ postType +:+ "/" +:+ JS.toString (id d) in
    let req1 :=
      mkOptions (Some "POST") (Some route)
        (Given (mkData JS.Undefined JS.Undefined JS.Undefined JS.Undefined
                  (Some (Lodash.pick (getEditedPostMeta (editorSelector w))
                           POST_META_WHITELIST)) ∅)) ∅ in
    let req2 :=
      mkOptions (Some "POST") (Some "/newspack-newsletters/v1/post-mjml")
        (Given (mkData (content d) JS.Undefined (title d) (id d) None ∅)) ∅ in
    let req3 :=
      mkOptions (Some "POST") (Some route)
        (Given (mkData JS.Undefined JS.Undefined JS.Undefined JS.Undefined
                  (Some {[ email_html_meta (config w) := JS.Str html ]}) ∅)) ∅ in
    data options = Given d ∧
    new = pre ++ [EvNext o r] ∧
    List.filter isApiFetch pre
    = [EvApiFetch req1 (Some r1); EvApiFetch req2 (Some r2); EvApiFetch req3 (Some r3)] ∧
    networkCalls pre = 3 ∧ networkCalls new = 3.
Proof.
  intros Hin Hrun Hnext.
  destruct (middleware_run_inv w _ _ _ _ Hin Hrun) as (d & Hd & HRun).
  destruct (run_forwarded_inv w _ _ _ _ _ HRun (or_introl Hnext))
    as (r1 & r2 & mjml & imgs & patched & html & r3
        & _ & _ & _ & _ & Hok & _ & _ & -> & _).
  exists d.
  eexists (([_; _] ++ imgs) ++ [_]), _, _, r1, r2, r3, html. cbv zeta.
  split; [exact Hd |]. split; [by rewrite <- !app_assoc |].
  unfold networkCalls.
  rewrite !List.filter_app. simpl. rewrite (loads_no_fetch imgs Hok). done.
Qed.

(** C7: the network calls an intercepted request makes of its own are [POST]s
    to the post's own REST route or to the MJML route, whatever the run. *)
Theorem only_two_endpoints (w : World) (options : Options) (h new : list Event)
    (out : Outcome Response) :
  intercepted w options = true →
  middleware w options h = (h ++ new, out) →
  ∃ d, data options = Given d ∧
    ∀ o r, EvApiFetch o r ∈ new →
      method o = Some "POST" ∧
      (path o = Some ("/wp/v2/" +:+ getCurrentPostType (editorSelector w)
                        +:+ "/" +:+ JS.toString (id d))
       ∨ path o = Some "/newspack-newsletters/v1/post-mjml").
Proof.
  intros Hin Hrun.
  destruct (middleware_run_inv w _ _ _ _ Hin Hrun) as (d & Hd & _).
  exists d. split; [done |]. intros o r He.
  destruct (own_call_cases w _ _ _ _ _ _ Hin Hrun He)
    as (d' & Hd' & [-> | [-> | [html ->]]]).
  all: assert (d' = d) as -> by congruence.
  all: split; [done |]; by (left + right).
Qed.

(** ** The meta of the two payloads *)

(** C1, as amended: of an intercepted request that carries a meta object,
    the first network call persists the allow-listed keys of the meta the
    editor store holds, and what is handed to [next] carries the payload's
    meta without the allow-listed keys and without the email HTML key, the
    other keys being kept. *)
Theorem meta_partition (w : World) (options : Options) (h new : list Event)
    (out : Outcome Response) (d : Data) (m : gmap string JS.value) :
  intercepted w options = true →
  middleware w options h = (h ++ new, out) →
  data options = Given d →
  meta d = Some m →
  let store := getEditedPostMeta (editorSelector w) in
  let stripped := POST_META_WHITELIST ++ [email_html_meta (config w)] in
  (∃ o1 d1 persisted r later,
      new = EvApiFetch o1 r :: later ∧
      data o1 = Given d1 ∧ meta d1 = Some persisted ∧
      ∀ k, persisted !! k
           = if decide (k ∈ POST_META_WHITELIST) then store ≫= (.!! k) else None) ∧
  (∀ o' r', EvNext o' r' ∈ new →
      ∃ d' m', data o' = Given d' ∧ meta d' = Some m' ∧
        ∀ k, m' !! k = if decide (k ∈ stripped) then None else m !! k).
Proof.
  intros Hin Hrun Hd Hm store stripped. split.
  - destruct (first_call_saves_meta w _ _ _ _ Hin Hrun) as (d0 & r & later & Hd0 & ->).
    eexists _, _, _, r, later. split; [done |].
    split; [reflexivity |]. split; [reflexivity |].
    intros k. apply lookup_pick.
  - intros o' r' He.
    rewrite (forwarded_is_stripped w _ _ _ _ _ _ Hin Hrun He).
    rewrite (stripMeta_meta _ _ _ _ Hd Hm).
    eexists _, _. split; [reflexivity |]. split; [reflexivity |].
    intros k. apply lookup_omit.
Qed.

(** C8: what an intercepted request hands to [next] is the request itself
    when it carries no meta object; when it carries one, it is the request
    with, in its meta, no allow-listed key and no email HTML key, every
    other key having the value it had. *)
Theorem forwarded_meta_frame (w : World) (options : Options) (h new : list Event)
    (out : Outcome Response) (d : Data) (o' : Options) (r : option Response) :
  intercepted w options = true →
  middleware w options h = (h ++ new, out) →
  data options = Given d →
  EvNext o' r ∈ new →
  match meta d with
  | Some m =>
      ∃ m',
        o' = mkOptions (method options) (path options)
               (Given (mkData (content d) (id d) (title d) (post_id d) (Some m') (rest d)))
               (extra options) ∧
        (∀ k, k ∈ POST_META_WHITELIST → m' !! k = None) ∧
        m' !! email_html_meta (config w) = None ∧
        (∀ k, k ∉ POST_META_WHITELIST → k ≠ email_html_meta (config w) →
              m' !! k = m !! k)
  | None => o' = options
  end.
Proof.
  intros Hin Hrun Hd He.
  rewrite (forwarded_is_stripped w _ _ _ _ _ _ Hin Hrun He).
  destruct (meta d) as [m|] eqn:Hm; [| by eapply stripMeta_no_meta].
  eexists. split; [by apply stripMeta_meta |].
  split; [| split].
  - intros k Hk. rewrite lookup_omit, decide_True; [done |].
    apply elem_of_app. by left.
  - rewrite lookup_omit, decide_True; [done |].
    apply elem_of_app. right. by apply list_elem_of_singleton.
  - intros k Hk Hne. rewrite lookup_omit, decide_False; [done |].
    by intros [?|?%list_elem_of_singleton]%elem_of_app.
Qed.

(** C10: the meta the first network call of an intercepted request persists
    is the pick of the editor store's edited meta over the allow list,
    whatever meta the request itself carries; and there is a request whose
    payload gives an allow-listed key another value than the one persisted. *)
Theorem persisted_meta_from_store :
  (∀ (w : World) (options : Options) (h new : list Event) (out : Outcome Response),
      intercepted w options = true →
      middleware w options h = (h ++ new, out) →
      ∃ o1 d1 r later,
        new = EvApiFetch o1 r :: later ∧
        data o1 = Given d1 ∧
        meta d1 = Some (Lodash.pick (getEditedPostMeta (editorSelector w))
                          POST_META_WHITELIST) ∧
        ∀ k, Lodash.pick (getEditedPostMeta (editorSelector w)) POST_META_WHITELIST !! k
             = if decide (k ∈ POST_META_WHITELIST)
               then getEditedPostMeta (editorSelector w) ≫= (.!! k)
               else None) ∧
  (∃ (w : World) (options : Options) (d : Data) (m : gmap string JS.value) (k : string),
      intercepted w options = true ∧
      data options = Given d ∧ meta d = Some m ∧
      k ∈ POST_META_WHITELIST ∧
      Lodash.pick (getEditedPostMeta (editorSelector w)) POST_META_WHITELIST !! k
        ≠ m !! k).
Proof.
  split.
  - intros w options h new out Hin Hrun.
    destruct (first_call_saves_meta w _ _ _ _ Hin Hrun) as (d0 & r & later & Hd0 & ->).
    eexists _, _, r, later. split; [done |].
    split; [reflexivity |]. split; [reflexivity |].
    intros k. apply lookup_pick.
  - exists Demo.world, Demo.save, Demo.payload, Demo.payloadMeta, "is_public".
    split; [by vm_compute |]. split; [done |]. split; [done |].
    split; [by left |]. by vm_compute.
Qed.

(** ** The widths written *)

(** C2: when no image load of a call of [fixImagesWidth] fails, the call
    resolves with the serialization of a fragment in which every [mj-image]
    that had no [width] attribute has one: the printed width of the size
    the loader answered when asked for the [src] of that element, asked
    after one load for each [mj-image] before it in the document that needed
    a width. Its other attributes are as they were. *)
Theorem missing_width_backfilled (w : World) (mjml : string) (h new : list Event)
    (out : Outcome string) :
  fixImagesWidth w mjml h = (h ++ new, out) →
  (∀ src, EvImage src None ∉ new) →
  ∃ frag,
    out = Resolved (serializeHTML w frag) ∧
    fixImagesFragment w mjml h = (h ++ new, Resolved frag) ∧
    ∀ i e,
      elements (parseHTML w mjml) !! i = Some e →
      tagName e = mj_image →
      getAttribute e "width" = None →
      ∃ e' size pre post,
        elements frag !! i = Some e' ∧
        tagName e' = mj_image ∧
        new = pre ++ EvImage (srcString (getAttribute e "src")) (Some size) :: post ∧
        length pre
          = length (List.filter needsWidth (take i (elements (parseHTML w mjml)))) ∧
        loader w (h ++ pre) (srcString (getAttribute e "src")) = Some size ∧
        getAttribute e' "width" = Some (pretty (width size)) ∧
        ∀ name, name ≠ "width" → getAttribute e' name = getAttribute e name.
Proof.
  intros Hrun Hloads. destruct out as [out|why].
  - destruct (fixImagesWidth_fragment w _ _ _ _ Hrun) as (frag & Hfrag & ->).
    exists frag. split; [done |]. split; [done |].
    intros i e He Ht Hw.
    destruct (fixImagesFragment_position w _ _ _ _ _ _ Hfrag He Ht)
      as (pre & size & post & Hnew & Hlen & Hload & Hi); [by rewrite Hw |].
    apply app_inv_head in Hnew as ->.
    eexists _, size, pre, post. split; [exact Hi |]. split; [done |].
    split; [done |]. split; [exact Hlen |]. split; [exact Hload |].
    split; [apply getAttribute_set_eq |].
    intros name Hne. by apply getAttribute_set_ne.
  - destruct (fixImagesWidth_rejected w _ _ _ _ Hrun) as (pre & src & Hnew & _ & _).
    apply app_inv_head in Hnew as ->.
    exfalso. apply (Hloads src), elem_of_app. right. by left.
Qed.

(** C9, as amended: in the fragment a call of [fixImagesWidth] that resolves
    serializes, every [mj-image] has a [width] attribute, and every
    [mj-image] that came with a [width] attribute other than the empty
    string is as it was. *)
Theorem images_have_width (w : World) (mjml : string) (h h' : list Event)
    (out : string) :
  fixImagesWidth w mjml h = (h', Resolved out) →
  ∃ frag,
    out = serializeHTML w frag ∧
    fixImagesFragment w mjml h = (h', Resolved frag) ∧
    (∀ i e', elements frag !! i = Some e' → tagName e' = mj_image →
             is_Some (getAttribute e' "width")) ∧
    (∀ i e v, elements (parseHTML w mjml) !! i = Some e → tagName e = mj_image →
              getAttribute e "width" = Some v → v ≠ "" →
              elements frag !! i = Some e).
Proof.
  intros Hrun.
  destruct (fixImagesWidth_fragment w _ _ _ _ Hrun) as (frag & Hfrag & ->).
  exists frag. split; [done |]. split; [done |].
  destruct (fixImagesFragment_resolved w _ _ _ _ Hfrag)
    as (imgs & _ & _ & _ & Hlen & Hsame & Hset).
  split.
  - intros i e' He' Ht.
    destruct (lookup_lt_is_Some_2 (elements (parseHTML w mjml)) i) as [e He].
    { rewrite <- Hlen. by eapply lookup_lt_Some. }
    destruct (attrTruthy (getAttribute e "width")) eqn:Hw.
    + rewrite (Hsame i e He (or_intror Hw)) in He'. injection He' as <-.
      destruct (getAttribute e "width"); [by eexists | done].
    + destruct (decide (tagName e = mj_image)) as [Hte|Hte].
      * destruct (Hset i e He Hte Hw) as (size & _ & Hi).
        rewrite Hi in He'. injection He' as <-.
        rewrite getAttribute_set_eq. by eexists.
      * rewrite (Hsame i e He (or_introl Hte)) in He'. congruence.
  - intros i e v He Ht Hv Hne. apply Hsame; [done |]. right.
    rewrite Hv. simpl. by apply negb_true_iff, String.eqb_neq.
Qed.

(** ** The claims that do not hold as written *)

(** C1 as written fails: the request of [Demo] reaches [next] with the key
    [campaign], which is not on the allow list, still in its meta. *)
Lemma remainder_not_stripped :
  ¬ (∀ o' r d' m' k,
        EvNext o' r ∈ (middleware Demo.world Demo.save []).1 →
        data o' = Given d' → meta d' = Some m' →
        k ∉ POST_META_WHITELIST →
        m' !! k = None).
Proof.
  intros H.
  assert (Hin : EvNext (stripMeta "newspack_email_html" Demo.save) (Some Demo.answer)
                  ∈ (middleware Demo.world Demo.save []).1).
  { apply (list_elem_of_lookup_2 _ 4). by vm_compute. }
  assert (Hk : "campaign" ∉ POST_META_WHITELIST).
  { apply (bool_decide_unpack _). by vm_compute. }
  specialize (H _ _ _ _ "campaign" Hin eq_refl eq_refl Hk).
  vm_compute in H. discriminate.
Qed.

(** C6 as written fails: the request of [Demo] reaches [next] after three
    network calls of the middleware's own, not two. *)
Lemma three_network_calls :
  ¬ (intercepted Demo.world Demo.save = true →
     ∀ pre o r,
       (middleware Demo.world Demo.save []).1 = pre ++ [EvNext o r] →
       networkCalls pre = 2).
Proof.
  intros H.
  specialize (H eq_refl
                (take 4 (middleware Demo.world Demo.save []).1)
                (stripMeta "newspack_email_html" Demo.save) (Some Demo.answer)).
  assert (Hlog : (middleware Demo.world Demo.save []).1
                 = take 4 (middleware Demo.world Demo.save []).1
                     ++ [EvNext (stripMeta "newspack_email_html" Demo.save)
                           (Some Demo.answer)])
    by (by vm_compute).
  specialize (H Hlog). vm_compute in H. discriminate.
Qed.

(** C9 as written fails: an [mj-image] that comes with an empty [width]
    attribute leaves with the width of the loaded image. *)
Lemma empty_width_overwritten :
  ¬ (∀ h' frag,
        fixImagesFragment Demo.world Demo.emptyWidthMarkup [] = (h', Resolved frag) →
        ∀ i e v,
          elements (parseHTML Demo.world Demo.emptyWidthMarkup) !! i = Some e →
          tagName e = mj_image →
          getAttribute e "width" = Some v →
          ∃ e', elements frag !! i = Some e' ∧ getAttribute e' "width" = Some v).
Proof.
  intros H.
  destruct (H _ _ eq_refl 0 _ "" eq_refl eq_refl eq_refl) as (e' & He' & Hw).
  vm_compute in He'. injection He' as <-. vm_compute in Hw. discriminate.
Qed.

(** C4 fails on an update addressed by [url]: with a post of another type in
    the editor the claim has the request go to [next] as it is, and the
    middleware rejects with a [TypeError] without calling [next]. *)
Theorem pathless_update_rejected :
  method Demo.saveByUrl = Some "POST" ∧
  path Demo.saveByUrl = None ∧
  (getCurrentPostType (editorSelector Demo.otherEditor)
     ∉ mjml_handling_post_types (config Demo.otherEditor)) ∧
  middleware Demo.otherEditor Demo.saveByUrl [] = ([], Rejected TypeError) ∧
  next Demo.otherEditor Demo.saveByUrl []
    = ([EvNext Demo.saveByUrl (Some Demo.answer)], Resolved Demo.answer).
Proof.
  split; [done |]. split; [done |]. split.
  - apply (bool_decide_unpack _). by vm_compute.
  - split; by vm_compute.
Qed.

(** ** The theorems at work in the concrete world *)

Lemma steps_in_order_witness :
  intercepted Demo.world Demo.save = true ∧
  ∃ h' imgs html,
    middleware Demo.world Demo.save [] = (h', Resolved Demo.answer) ∧
    Forall successfulLoad imgs ∧
    length h' = (2 + length imgs + 2)%nat ∧
    (∃ frag, mjml2html Demo.world (serializeHTML Demo.world frag) = Some html).
Proof.
  split; [reflexivity |].
  assert (Hrun : middleware Demo.world Demo.save []
                 = ((middleware Demo.world Demo.save []).1, Resolved Demo.answer))
    by (vm_compute; reflexivity).
  destruct (steps_in_order Demo.world Demo.save [] _ _ eq_refl Hrun)
    as (d & r1 & r2 & mjml & imgs & frag & html & r3
        & _ & _ & _ & _ & _ & Hok & _ & _ & _ & _ & Hconv & _ & _ & Hlog).
  exists (middleware Demo.world Demo.save []).1, imgs, html.
  split; [exact Hrun |]. split; [exact Hok |]. split.
  - rewrite Hlog. rewrite !length_app. simpl. lia.
  - exists frag. exact Hconv.
Defined.

Lemma failed_step_aborts_witness :
  intercepted Demo.brokenImages Demo.save = true ∧
  (∃ e, e ∈ (middleware Demo.brokenImages Demo.save []).1 ∧ failedStep e = true) ∧
  (∃ why, (middleware Demo.brokenImages Demo.save []).2 = Rejected why) ∧
  (∀ e, e ∈ (middleware Demo.brokenImages Demo.save []).1 → isNext e = false).
Proof.
  assert (Hfail : ∃ e, e ∈ (middleware Demo.brokenImages Demo.save []).1
                       ∧ failedStep e = true).
  { exists (EvImage "a.png" None). split; [| reflexivity].
    apply (list_elem_of_lookup_2 _ 2). vm_compute. reflexivity. }
  split; [reflexivity |]. split; [exact Hfail |].
  destruct (failed_step_aborts Demo.brokenImages Demo.save []
              (middleware Demo.brokenImages Demo.save []).1
              (middleware Demo.brokenImages Demo.save []).2
              eq_refl (surjective_pairing _) Hfail) as (Hrej & Hnext & _).
  split; [exact Hrej | exact Hnext].
Defined.

Lemma three_calls_before_forwarding_witness :
  intercepted Demo.world Demo.save = true ∧
  (∃ e, e ∈ (middleware Demo.world Demo.save []).1 ∧ isNext e = true) ∧
  networkCalls (middleware Demo.world Demo.save []).1 = 3%nat.
Proof.
  assert (Hnext : ∃ e, e ∈ (middleware Demo.world Demo.save []).1 ∧ isNext e = true).
  { exists (EvNext (stripMeta "newspack_email_html" Demo.save) (Some Demo.answer)).
    split; [| reflexivity].
    apply (list_elem_of_lookup_2 _ 4). vm_compute. reflexivity. }
  split; [reflexivity |]. split; [exact Hnext |].
  destruct (three_calls_before_forwarding Demo.world Demo.save []
              (middleware Demo.world Demo.save []).1
              (middleware Demo.world Demo.save []).2
              eq_refl (surjective_pairing _) Hnext)
    as (d & pre & o & r & r1 & r2 & r3 & html & _ & _ & _ & _ & Hthree).
  exact Hthree.
Defined.

Lemma only_two_endpoints_witness :
  intercepted Demo.world Demo.save = true ∧
  ∃ d, data Demo.save = Given d ∧
    ∀ o r, EvApiFetch o r ∈ (middleware Demo.world Demo.save []).1 →
      method o = Some "POST" ∧
      (path o = Some ("/wp/v2/" +:+ getCurrentPostType (editorSelector Demo.world)
                        +:+ "/" +:+ JS.toString (id d))
       ∨ path o = Some "/newspack-newsletters/v1/post-mjml").
Proof.
  split; [reflexivity |].
  exact (only_two_endpoints Demo.world Demo.save []
           (middleware Demo.world Demo.save []).1
           (middleware Demo.world Demo.save []).2
           eq_refl (surjective_pairing _)).
Defined.

Lemma meta_partition_witness :
  intercepted Demo.world Demo.save = true ∧
  data Demo.save = Given Demo.payload ∧
  meta Demo.payload = Some Demo.payloadMeta ∧
  ∀ o' r', EvNext o' r' ∈ (middleware Demo.world Demo.save []).1 →
    ∃ d' m', data o' = Given d' ∧ meta d' = Some m' ∧
      ∀ k, m' !! k
           = if decide (k ∈ POST_META_WHITELIST ++ [email_html_meta (config Demo.world)])
             then None else Demo.payloadMeta !! k.
Proof.
  split; [reflexivity |]. split; [reflexivity |]. split; [reflexivity |].
  exact (proj2 (meta_partition Demo.world Demo.save []
                  (middleware Demo.world Demo.save []).1
                  (middleware Demo.world Demo.save []).2
                  Demo.payload Demo.payloadMeta
                  eq_refl (surjective_pairing _) eq_refl eq_refl)).
Defined.

Lemma forwarded_meta_frame_witness :
  intercepted Demo.world Demo.save = true ∧
  data Demo.save = Given Demo.payload ∧
  EvNext (stripMeta "newspack_email_html" Demo.save) (Some Demo.answer)
    ∈ (middleware Demo.world Demo.save []).1 ∧
  ∃ m',
    stripMeta "newspack_email_html" Demo.save
      = mkOptions (method Demo.save) (path Demo.save)
          (Given (mkData (content Demo.payload) (id Demo.payload) (title Demo.payload)
                    (post_id Demo.payload) (Some m') (rest Demo.payload)))
          (extra Demo.save) ∧
    (∀ k, k ∈ POST_META_WHITELIST → m' !! k = None) ∧
    m' !! email_html_meta (config Demo.world) = None ∧
    (∀ k, k ∉ POST_META_WHITELIST → k ≠ email_html_meta (config Demo.world) →
          m' !! k = Demo.payloadMeta !! k).
Proof.
  assert (Hin : EvNext (stripMeta "newspack_email_html" Demo.save) (Some Demo.answer)
                  ∈ (middleware Demo.world Demo.save []).1).
  { apply (list_elem_of_lookup_2 _ 4). vm_compute. reflexivity. }
  split; [reflexivity |]. split; [reflexivity |]. split; [exact Hin |].
  exact (forwarded_meta_frame Demo.world Demo.save []
           (middleware Demo.world Demo.save []).1
           (middleware Demo.world Demo.save []).2
           Demo.payload _ _
           eq_refl (surjective_pairing _) eq_refl Hin).
Defined.

Lemma persisted_meta_from_store_witness :
  intercepted Demo.world Demo.save = true ∧
  ∃ o1 d1 r later,
    (middleware Demo.world Demo.save []).1 = EvApiFetch o1 r :: later ∧
    data o1 = Given d1 ∧
    meta d1 = Some (Lodash.pick (Some Demo.editedMeta) POST_META_WHITELIST).
Proof.
  split; [reflexivity |].
  destruct (proj1 persisted_meta_from_store Demo.world Demo.save []
              (middleware Demo.world Demo.save []).1
              (middleware Demo.world Demo.save []).2
              eq_refl (surjective_pairing _))
    as (o1 & d1 & r & later & Hlog & Hd1 & Hm1 & _).
  exists o1, d1, r, later. split; [exact Hlog |]. split; [exact Hd1 | exact Hm1].
Defined.

Lemma missing_width_backfilled_witness :
  (∀ src, EvImage src None ∉ (fixImagesWidth Demo.world Demo.markup []).1) ∧
  ∃ frag,
    (fixImagesWidth Demo.world Demo.markup []).2
      = Resolved (serializeHTML Demo.world frag) ∧
    ∃ e' size pre,
      elements frag !! 4%nat = Some e' ∧
      tagName e' = mj_image ∧
      loader Demo.world ([] ++ pre) "a.png" = Some size ∧
      getAttribute e' "width" = Some (pretty (width size)).
Proof.
  assert (Hok : ∀ src, EvImage src None ∉ (fixImagesWidth Demo.world Demo.markup []).1).
  { intros src Hin. vm_compute in Hin.
    apply list_elem_of_singleton in Hin. discriminate. }
  split; [exact Hok |].
  destruct (missing_width_backfilled Demo.world Demo.markup []
              (fixImagesWidth Demo.world Demo.markup []).1
              (fixImagesWidth Demo.world Demo.markup []).2
              (surjective_pairing _) Hok) as (frag & Hout & _ & Hset).
  exists frag. split; [exact Hout |].
  destruct (Hset 4%nat (mkElement "mj-image" [("src", "a.png")])
              eq_refl eq_refl eq_refl)
    as (e' & size & pre & post & He' & Ht & _ & _ & Hload & Hw & _).
  exists e', size, pre. split; [exact He' |]. split; [exact Ht |].
  split; [exact Hload | exact Hw].
Defined.

Lemma images_have_width_witness :
  ∃ h' out frag,
    fixImagesWidth Demo.world Demo.markup [] = (h', Resolved out) ∧
    out = serializeHTML Demo.world frag ∧
    ∀ i e', elements frag !! i = Some e' → tagName e' = mj_image →
            is_Some (getAttribute e' "width").
Proof.
  assert (Hrun : fixImagesWidth Demo.world Demo.markup []
                 = ((fixImagesWidth Demo.world Demo.markup []).1,
                    Resolved Demo.patched))
    by (vm_compute; reflexivity).
  destruct (images_have_width Demo.world Demo.markup [] _ _ Hrun)
    as (frag & Hout & _ & Hall & _).
  eexists _, _, frag.
  split; [exact Hrun |]. split; [exact Hout | exact Hall].
Defined.

(** ** Requests that are not converted *)

(** X1: a request that fails the method guard, or whose data is an object or
    not there and that fails the content guard, or has a [path] and fails
    one of the two post type guards, goes to [next] as it is; that call is
    the only thing logged and its outcome is the outcome of the middleware. *)
Theorem guards_forward_unchanged (w : World) (options : Options) (h : list Event) :
  let types := mjml_handling_post_types (config w) in
  (method options ≠ Some "POST" ∧ method options ≠ Some "PUT")
  ∨ (∃ d, destructuredData options = Some d ∧
          ((JS.truthy (content d) = false ∨ JS.truthy (id d) = false)
           ∨ ∃ p, path options = Some p ∧
                  ((∀ postType, postType ∈ types → JS.indexOf p postType = None)
                   ∨ getCurrentPostType (editorSelector w) ∉ types))) →
  middleware w options h
  = (h ++ [EvNext options (chain w h options)],
     match chain w h options with
     | Some response => Resolved response
     | None => Rejected (NextRejected options)
     end).
Proof.
  intros types H. by rewrite (middleware_passes_through w options h H).
Qed.

(** X2: with an empty list of handled post types a request goes to [next]
    as it is, also one without [path], since the callback of [some] that
    reads the path never runs; the one exception is a [POST] or [PUT] with
    [data: null], on which reading [data.content] throws. *)
Theorem no_handled_types_forwards_all (w : World) (options : Options) (h : list Event) :
  mjml_handling_post_types (config w) = [] →
  middleware w options h
  = match data options with
    | IsNull =>
        if bool_decide (method options = Some "POST")
           || bool_decide (method options = Some "PUT")
        then (h, Rejected TypeError)
        else next w options h
    | _ => next w options h
    end.
Proof.
  intros Hnone. unfold middleware, destructuredData. rewrite Hnone.
  destruct (bool_decide (method options = Some "POST")),
           (bool_decide (method options = Some "PUT")); simpl;
    destruct (data options) as [| |d]; try done;
    by destruct (negb _ || negb _).
Qed.

(** X3: an update that carries content and an id but no [path], on a page
    that handles some post type, makes the middleware reject with a
    [TypeError]; nothing is sent and [next] is not called. *)
Theorem pathless_update_throws (w : World) (options : Options) (d : Data)
    (h : list Event) :
  method options = Some "POST" ∨ method options = Some "PUT" →
  data options = Given d →
  JS.truthy (content d) = true →
  JS.truthy (id d) = true →
  path options = None →
  mjml_handling_post_types (config w) ≠ [] →
  middleware w options h = (h, Rejected TypeError).
Proof.
  intros Hm Hd Hc Hi Hp Ht. unfold middleware, destructuredData.
  rewrite Hd, Hp. simpl. rewrite Hc, Hi. simpl.
  assert (negb (bool_decide (method options = Some "POST"))
          && negb (bool_decide (method options = Some "PUT")) = false) as ->.
  { destruct Hm as [Hm|Hm]; rewrite Hm.
    - by rewrite bool_decide_eq_true_2.
    - rewrite (bool_decide_eq_true_2 (Some "PUT" = Some "PUT")) by done.
      apply andb_false_r. }
  by destruct (mjml_handling_post_types (config w)).
Qed.

(** X4: the three requests the middleware sends through [apiFetch] come back
    to it as requests; each of them goes to [next] as it is, so the
    middleware does not start a conversion for its own calls. *)
Theorem own_requests_forwarded (w : World) (postType : string) (d : Data)
    (postMeta : option (gmap string JS.value)) (name html : string)
    (h : list Event) :
  middleware w (saveMetaRequest postType d postMeta) h
    = next w (saveMetaRequest postType d postMeta) h ∧
  middleware w (postMjmlRequest d) h = next w (postMjmlRequest d) h ∧
  middleware w (saveHtmlRequest postType d name html) h
    = next w (saveHtmlRequest postType d name html) h.
Proof.
  repeat split; apply middleware_passes_through; right;
    eexists; (split; [reflexivity |]); left; simpl; auto.
Qed.

(** ** How a run ends *)

(** X5: on a page with its configuration and editor store, and as far as
    the calls to the outside settle, the middleware ends in one of three
    ways, whatever the request: it stops at the first network call or image
    load that rejected, and rejects, without a call of [next]; or it rejects
    on an error of its own (a property read on [null] or [undefined], the
    converter throwing) after calls that all succeeded, without a call of
    [next]; or it calls [next] once, as the last thing it does, after calls
    that all succeeded, and settles the way [next] does. *)
Theorem middleware_settles (w : World) (options : Options) (h : list Event) :
  ∃ new out,
    middleware w options h = (h ++ new, out) ∧
    ((∃ pre e why,
        new = pre ++ [e] ∧ failedStep e = true ∧ isNext e = false ∧
        out = Rejected why ∧
        Forall (fun e' => isNext e' = false ∧ failedStep e' = false) pre)
     ∨ (∃ why,
          out = Rejected why ∧ (why = TypeError ∨ why = ConversionError) ∧
          Forall (fun e' => isNext e' = false ∧ failedStep e' = false) new)
     ∨ (∃ pre o r,
          new = pre ++ [EvNext o r] ∧
          out = match r with
                | Some response => Resolved response
                | None => Rejected (NextRejected o)
                end ∧
          Forall (fun e' => isNext e' = false ∧ failedStep e' = false) pre)).
Proof.
  destruct (intercepted w options) eqn:Hin.
  - destruct (middleware_run w options Hin) as (d & _ & Hruns).
    destruct (Hruns h) as (new & out & Hrun & HRun).
    exists new, out. split; [done |].
    destruct (run_endings w _ _ _ _ _ HRun)
      as [(pre & e & why & ? & ? & ? & ? & _ & ?)
         |[(why & ? & Hown & ?)|(pre & o & r & ? & ? & ?)]].
    + left. by exists pre, e, why.
    + right. left. exists why. split; [done |]. split; [| done].
      destruct why; try discriminate; auto.
    + right. right. by exists pre, o, r.
  - destruct (not_intercepted_cases w options h Hin) as [-> | ->].
    + eexists _, _. split; [reflexivity |]. right. right.
      eexists [], _, _. split; [reflexivity |]. split; [reflexivity | constructor].
    + exists [], (Rejected TypeError). rewrite app_nil_r. split; [done |].
      right. left. exists TypeError. split; [done |]. split; [by left | constructor].
Qed.

(** X6: when an intercepted request makes the middleware reject, the reason
    is the one of the call logged last, be it a network call, an image load
    or [next], passed on as it came; or it is an error of the middleware's
    own, a [TypeError] on an answer that cannot be destructured or the error
    of the converter, and then every call in the log had succeeded. *)
Theorem rejection_names_last_step (w : World) (options : Options)
    (h new : list Event) (why : Rejection) :
  intercepted w options = true →
  middleware w options h = (h ++ new, Rejected why) →
  match rejectedBy why with
  | Some e => last new = Some e
  | None =>
      (why = TypeError ∨ why = ConversionError) ∧
      ∀ e, e ∈ new → failedStep e = false ∧ isNext e = false
  end.
Proof.
  intros Hin Hrun.
  destruct (middleware_run_inv w _ _ _ _ Hin Hrun) as (d & _ & HRun).
  destruct (run_endings w _ _ _ _ _ HRun)
    as [(pre & e & why' & -> & _ & _ & Hout & Hby & _)
       |[(why' & Hout & Hown & Hq)|(pre & o & r & -> & Hout & _)]].
  - injection Hout as ->. rewrite Hby. apply last_snoc.
  - injection Hout as ->. rewrite Hown. split.
    + destruct why'; try discriminate; auto.
    + intros e He. eapply Forall_forall in Hq as [? ?]; [| exact He]. done.
  - destruct r as [response|]; [discriminate |]. injection Hout as ->.
    simpl. apply last_snoc.
Qed.

(** X8: what an intercepted request sends and loads before it goes to
    [next] depends on its payload through [content], [id] and [title] only:
    two intercepted requests that agree on these log the same calls of their
    own, whatever their method, path, meta and other properties. *)
Theorem own_calls_ignore_rest_of_request (w : World) (o1 o2 : Options)
    (d1 d2 : Data) (h : list Event) :
  intercepted w o1 = true →
  intercepted w o2 = true →
  data o1 = Given d1 →
  data o2 = Given d2 →
  content d1 = content d2 →
  id d1 = id d2 →
  title d1 = title d2 →
  ownCalls (middleware w o1 h).1 = ownCalls (middleware w o2 h).1.
Proof.
  intros (d1' & Hd1' & _ & _ & _ & Hmw1)%middleware_intercepted
         (d2' & Hd2' & _ & _ & _ & Hmw2)%middleware_intercepted
         Hd1 Hd2 Hc Hi Ht.
  assert (d1' = d1) as -> by congruence. assert (d2' = d2) as -> by congruence.
  rewrite Hmw1, Hmw2. unfold convertAndSave.
  assert (Hmeta : ∀ postType, metaPath postType d1 = metaPath postType d2)
    by (intros; unfold metaPath; by rewrite Hi).
  assert (postMjmlRequest d1 = postMjmlRequest d2) as ->
    by (unfold postMjmlRequest; by rewrite Hc, Hi, Ht).
  unfold saveMetaRequest, saveHtmlRequest. rewrite !Hmeta.
  unfold await, apiFetch, next, settle.
  destruct (server w h _); [| done].
  destruct (server w _ (postMjmlRequest d2)); [| done].
  destruct (mjmlOf _); [| done].
  destruct (fixImagesWidth w _ _) as [h3 [mjml|why]]; [| done].
  destruct (htmlOf _); [| done].
  destruct (server w h3 _); [| done].
  simpl. unfold ownCalls. by rewrite !List.filter_app.
Qed.

(** ** More on the widths *)

(** X9: on markup in which every [mj-image] has a non-empty [width], and so
    on markup without any [mj-image], [fixImagesWidth] loads no image and
    resolves with the serialization of what the parser made of its input. *)
Theorem all_widths_present_no_load (w : World) (mjml : string) (h : list Event) :
  (∀ e, e ∈ elements (parseHTML w mjml) → tagName e = mj_image →
        attrTruthy (getAttribute e "width") = true) →
  fixImagesWidth w mjml h = (h, Resolved (serializeHTML w (parseHTML w mjml))).
Proof.
  intros Hall. unfold fixImagesWidth, fixImagesFragment, await.
  rewrite fixImagesLoop_noop.
  - unfold resolve. by destruct (parseHTML w mjml).
  - intros i (e & He & Ht)%(elem_of_querySelectorAll w (parseHTML w mjml)).
    exists e. split; [done |]. apply Hall; [| done].
    by eapply list_elem_of_lookup_2.
Qed.

(** X10: [fixImagesWidth] logs image loads and nothing else, each with the
    answer the loader gave at that point: one load for each [mj-image] with
    a missing or empty [width], in document order and with the [src] of that
    element. When it resolves all of them were made and succeeded. When it
    rejects, the load that failed is the last entry of the log and the
    reason, the loads before it succeeded, and the loads made are the first
    of that list: no image after the failed one is loaded. *)
Theorem loads_follow_document_order (w : World) (mjml : string) (h new : list Event)
    (out : Outcome string) :
  fixImagesWidth w mjml h = (h ++ new, out) →
  let expected :=
    map (fun e => srcString (getAttribute e "src"))
      (List.filter needsWidth (elements (parseHTML w mjml))) in
  (∀ pre e post, new = pre ++ e :: post →
                 ∃ src, e = EvImage src (loader w (h ++ pre) src)) ∧
  match out with
  | Resolved _ => Forall successfulLoad new ∧ loadedSrcs new = expected
  | Rejected why =>
      ∃ pre src rest,
        new = pre ++ [EvImage src None] ∧ Forall successfulLoad pre ∧
        why = ImageError src ∧
        expected = loadedSrcs new ++ rest
  end.
Proof.
  intros Hrun expected. split; [exact (fixImagesWidth_answered w _ _ _ _ Hrun) |].
  assert (Hsrcs : match out with
                  | Resolved _ => loadedSrcs new = expected
                  | Rejected _ => ∃ rest, expected = loadedSrcs new ++ rest
                  end).
  { pose proof Hrun as Hrun'.
    unfold fixImagesWidth, fixImagesFragment, await, resolve in Hrun'.
    destruct (fixImagesLoop w _ _ h) as [h1 out1] eqn:Hloop.
    destruct (fixImagesLoop_srcs w _ _ _ _ _ (NoDup_matching _ _ _) Hloop)
      as (new1 & -> & _ & Hout).
    assert (Hexp : omap (fun i => elements (parseHTML w mjml) !! i ≫= pendingSrc)
                     (matching mj_image (elements (parseHTML w mjml)) 0) = expected).
    { pose proof (matching_pending (elements (parseHTML w mjml)) [] []) as Hp.
      simpl in Hp. by rewrite app_nil_r in Hp. }
    unfold querySelectorAll in Hout. rewrite Hexp in Hout.
    destruct out1 as [dom'|why]; injection Hrun' as Hnew <-;
      apply app_inv_head in Hnew as <-; done. }
  destruct out as [patched|why].
  - split; [| done].
    destruct (fixImagesWidth_resolved w _ _ _ _ Hrun) as (imgs & dom' & Hnew & Hok & _).
    by apply app_inv_head in Hnew as ->.
  - destruct (fixImagesWidth_rejected w _ _ _ _ Hrun) as (pre & src & Hnew & Hok & ->).
    apply app_inv_head in Hnew as ->.
    destruct Hsrcs as [rest Hrest]. by exists pre, src, rest.
Qed.

(** X11: a call of [fixImagesWidth] that resolves keeps the fragment in
    shape: same skeleton, same number of elements, and at each position an
    element with the tag and, but for [width], the attributes of the one
    that was there; an element that is not an [mj-image] in need of a width
    is the one that was there. *)
Theorem fix_keeps_structure (w : World) (mjml : string) (h h' : list Event)
    (out : string) :
  fixImagesWidth w mjml h = (h', Resolved out) →
  ∃ frag,
    out = serializeHTML w frag ∧
    skeleton frag = skeleton (parseHTML w mjml) ∧
    length (elements frag) = length (elements (parseHTML w mjml)) ∧
    ∀ i e, elements (parseHTML w mjml) !! i = Some e →
      ∃ e', elements frag !! i = Some e' ∧
            tagName e' = tagName e ∧
            (∀ name, name ≠ "width" → getAttribute e' name = getAttribute e name) ∧
            (needsWidth e = false → e' = e).
Proof.
  intros Hrun.
  destruct (fixImagesWidth_fragment w _ _ _ _ Hrun) as (frag & Hfrag & ->).
  exists frag. split; [done |].
  destruct (fixImagesFragment_resolved w _ _ _ _ Hfrag)
    as (imgs & _ & _ & Hsk & Hlen & Hsame & Hset).
  split; [done |]. split; [done |].
  intros i e He. unfold needsWidth.
  destruct (String.eqb (tagName e) mj_image) eqn:Ht.
  - apply String.eqb_eq in Ht.
    destruct (attrTruthy (getAttribute e "width")) eqn:Hw.
    + exists e. by rewrite (Hsame i e He (or_intror Hw)).
    + destruct (Hset i e He Ht Hw) as (size & _ & ->).
      eexists. split; [done |]. split; [done |]. split; [| done].
      intros name Hne. by apply getAttribute_set_ne.
  - apply String.eqb_neq in Ht.
    exists e. by rewrite (Hsame i e He (or_introl Ht)).
Qed.

(** X12: [fixImagesWidth] has nothing to do on its own result: when the
    parser reads the fragment back from its serialization, a second call on
    the markup a first call resolved with loads no image and resolves with
    the same markup. *)
Theorem second_pass_loads_nothing (w : World) (mjml : string) (h h' : list Event)
    (frag : Fragment (Skeleton w)) :
  fixImagesFragment w mjml h = (h', Resolved frag) →
  parseHTML w (serializeHTML w frag) = frag →
  ∀ h2, fixImagesWidth w (serializeHTML w frag) h2
        = (h2, Resolved (serializeHTML w frag)).
Proof.
  intros Hfrag Hback h2.
  destruct (fixImagesFragment_resolved w _ _ _ _ Hfrag)
    as (imgs & _ & _ & _ & Hlen & Hsame & Hset).
  unfold fixImagesWidth, fixImagesFragment, await. rewrite Hback.
  rewrite fixImagesLoop_noop; [unfold resolve; by destruct frag |].
  intros i (e' & He' & Ht')%(elem_of_querySelectorAll w frag).
  exists e'. split; [done |].
  destruct (lookup_lt_is_Some_2 (elements (parseHTML w mjml)) i) as [e He].
  { rewrite <- Hlen. by eapply lookup_lt_Some. }
  destruct (attrTruthy (getAttribute e "width")) eqn:Hw.
  - rewrite (Hsame i e He (or_intror Hw)) in He'. by injection He' as <-.
  - destruct (decide (tagName e = mj_image)) as [Hte|Hte].
    + destruct (Hset i e He Hte Hw) as (size & _ & Hi).
      rewrite Hi in He'. injection He' as <-.
      rewrite getAttribute_set_eq. simpl.
      apply negb_true_iff, String.eqb_neq, pretty_Z_nonempty.
    + rewrite (Hsame i e He (or_introl Hte)) in He'. congruence.
Qed.

(** ** What is written where *)

(** X13: the request an intercepted request ends up as for [next] writes no
    meta key that one of the middleware's own calls wrote in the same run:
    a key present in the meta of a logged network call is absent from the
    meta handed to [next]. *)
Theorem forwarded_never_overwrites_saved (w : World) (options : Options)
    (h new : list Event) (out : Outcome Response)
    (o o' : Options) (r r' : option Response) (ds d' : Data)
    (ms m' : gmap string JS.value) (k : string) :
  intercepted w options = true →
  middleware w options h = (h ++ new, out) →
  EvApiFetch o r ∈ new →
  data o = Given ds → meta ds = Some ms → is_Some (ms !! k) →
  EvNext o' r' ∈ new →
  data o' = Given d' → meta d' = Some m' →
  m' !! k = None.
Proof.
  intros Hin Hrun Hcall Hds Hms Hk Hnext Hd' Hm'.
  assert (Hkey : k ∈ POST_META_WHITELIST ++ [email_html_meta (config w)]).
  { destruct (own_call_cases w _ _ _ _ _ _ Hin Hrun Hcall)
      as (d & _ & [-> | [-> | [html ->]]]);
      simpl in Hds; injection Hds as <-; simpl in Hms; [| discriminate |];
      injection Hms as <-.
    - rewrite lookup_pick in Hk. apply elem_of_app. left.
      destruct (decide (k ∈ POST_META_WHITELIST)); [done | by destruct Hk].
    - apply elem_of_app. right. apply list_elem_of_singleton.
      destruct (decide (k = email_html_meta (config w))) as [|Hne]; [done |].
      rewrite lookup_singleton_ne in Hk by done. by destruct Hk. }
  rewrite (forwarded_is_stripped w _ _ _ _ _ _ Hin Hrun Hnext) in Hd'.
  unfold stripMeta in Hd'.
  destruct (data options) as [| |d0] eqn:Hd0; [congruence | congruence |].
  destruct (meta d0) as [m0|] eqn:Hm0.
  - assert (Hm : m' = Lodash.omit m0
                        (POST_META_WHITELIST ++ [email_html_meta (config w)])).
    { injection Hd' as <-. cbn [meta] in Hm'. injection Hm' as <-. reflexivity. }
    rewrite Hm, lookup_omit. by rewrite decide_True.
  - rewrite Hd0 in Hd'. injection Hd' as <-. congruence.
Qed.

(** ** These theorems at work in the concrete worlds *)

Lemma guards_forward_unchanged_witness :
  (getCurrentPostType (editorSelector Demo.otherEditor)
     ∉ mjml_handling_post_types (config Demo.otherEditor)) ∧
  middleware Demo.otherEditor Demo.save []
  = ([EvNext Demo.save (Some Demo.answer)], Resolved Demo.answer).
Proof.
  assert (Hpost : getCurrentPostType (editorSelector Demo.otherEditor)
                    ∉ mjml_handling_post_types (config Demo.otherEditor)).
  { apply (bool_decide_unpack _). vm_compute. exact I. }
  split; [exact Hpost |].
  apply (guards_forward_unchanged Demo.otherEditor Demo.save []).
  right. exists Demo.payload. split; [reflexivity |].
  right. exists "/wp/v2/newspack_nl_cpt/7". split; [reflexivity |].
  right. exact Hpost.
Defined.

Lemma no_handled_types_forwards_all_witness :
  mjml_handling_post_types (config Scenarios.noTypes) = [] ∧
  middleware Scenarios.noTypes Demo.saveByUrl []
  = next Scenarios.noTypes Demo.saveByUrl [] ∧
  middleware Scenarios.noTypes Scenarios.nullUpdate [] = ([], Rejected TypeError).
Proof.
  split; [reflexivity |]. split.
  - apply (no_handled_types_forwards_all Scenarios.noTypes Demo.saveByUrl []).
    reflexivity.
  - apply (no_handled_types_forwards_all Scenarios.noTypes Scenarios.nullUpdate []).
    reflexivity.
Defined.

Lemma pathless_update_throws_witness :
  path Demo.saveByUrl = None ∧
  middleware Demo.world Demo.saveByUrl [] = ([], Rejected TypeError).
Proof.
  split; [reflexivity |].
  apply (pathless_update_throws Demo.world Demo.saveByUrl Demo.payload []).
  - left. reflexivity.
  - reflexivity.
  - reflexivity.
  - reflexivity.
  - reflexivity.
  - discriminate.
Defined.

Lemma rejection_names_last_step_witness :
  intercepted Demo.brokenImages Demo.save = true ∧
  (middleware Demo.brokenImages Demo.save []).2 = Rejected (ImageError "a.png") ∧
  last (middleware Demo.brokenImages Demo.save []).1 = Some (EvImage "a.png" None) ∧
  (middleware Scenarios.nullAnswer Demo.save []).2 = Rejected TypeError ∧
  ∀ e, e ∈ (middleware Scenarios.nullAnswer Demo.save []).1 →
       failedStep e = false ∧ isNext e = false.
Proof.
  split; [reflexivity |]. split; [vm_compute; reflexivity |]. split.
  - apply (rejection_names_last_step Demo.brokenImages Demo.save []
             (middleware Demo.brokenImages Demo.save []).1 (ImageError "a.png")).
    + reflexivity.
    + vm_compute. reflexivity.
  - split; [vm_compute; reflexivity |].
    apply (rejection_names_last_step Scenarios.nullAnswer Demo.save []
             (middleware Scenarios.nullAnswer Demo.save []).1 TypeError).
    + reflexivity.
    + vm_compute. reflexivity.
Defined.

Lemma own_calls_ignore_rest_of_request_witness :
  intercepted Demo.world Demo.save = true ∧
  intercepted Demo.world Scenarios.update = true ∧
  method Demo.save ≠ method Scenarios.update ∧
  path Demo.save ≠ path Scenarios.update ∧
  ownCalls (middleware Demo.world Demo.save []).1
  = ownCalls (middleware Demo.world Scenarios.update []).1.
Proof.
  split; [reflexivity |]. split; [reflexivity |].
  split; [discriminate |]. split; [discriminate |].
  apply (own_calls_ignore_rest_of_request Demo.world Demo.save Scenarios.update
           Demo.payload _ [] eq_refl eq_refl eq_refl eq_refl eq_refl eq_refl eq_refl).
Defined.

Lemma all_widths_present_no_load_witness :
  length (elements (parseHTML Demo.world Demo.patched)) = 6%nat ∧
  fixImagesWidth Demo.world Demo.patched []
  = ([], Resolved (serializeHTML Demo.world (parseHTML Demo.world Demo.patched))).
Proof.
  split; [reflexivity |].
  apply (all_widths_present_no_load Demo.world Demo.patched []).
  intros e He Ht.
  change (elements (parseHTML Demo.world Demo.patched))
    with (elements Demo.patchedMarkup) in He.
  unfold Demo.patchedMarkup in He. simpl in He.
  repeat (apply elem_of_cons in He as [-> | He];
          [first [discriminate Ht | reflexivity] |]).
  apply elem_of_nil in He. destruct He.
Defined.

Lemma loads_follow_document_order_witness :
  loadedSrcs (fixImagesWidth Demo.world Demo.markup []).1
  = map (fun e => srcString (getAttribute e "src"))
      (List.filter needsWidth (elements (parseHTML Demo.world Demo.markup))) ∧
  loadedSrcs (fixImagesWidth Demo.world Demo.markup []).1 = ["a.png"].
Proof.
  split; [| vm_compute; reflexivity].
  assert (Hrun : fixImagesWidth Demo.world Demo.markup []
                 = ([] ++ (fixImagesWidth Demo.world Demo.markup []).1,
                    Resolved Demo.patched)) by (vm_compute; reflexivity).
  exact (proj2 (proj2 (loads_follow_document_order Demo.world Demo.markup [] _ _ Hrun))).
Defined.

Lemma fix_keeps_structure_witness :
  ∃ h' frag,
    fixImagesWidth Demo.world Demo.markup [] = (h', Resolved Demo.patched) ∧
    Demo.patched = serializeHTML Demo.world frag ∧
    length (elements frag) = 6%nat.
Proof.
  assert (Hrun : fixImagesWidth Demo.world Demo.markup []
                 = ((fixImagesWidth Demo.world Demo.markup []).1,
                    Resolved Demo.patched)) by (vm_compute; reflexivity).
  destruct (fix_keeps_structure Demo.world Demo.markup [] _ _ Hrun)
    as (frag & Hout & _ & Hlen & _).
  eexists _, frag. split; [exact Hrun |]. split; [exact Hout | exact Hlen].
Defined.

Lemma second_pass_loads_nothing_witness :
  ∃ h' frag,
    fixImagesFragment Demo.world Demo.markup [] = (h', Resolved frag) ∧
    parseHTML Demo.world (serializeHTML Demo.world frag) = frag ∧
    fixImagesWidth Demo.world (serializeHTML Demo.world frag) []
    = ([], Resolved (serializeHTML Demo.world frag)).
Proof.
  exists [EvImage "a.png" (Some (mkSize 600 400))], Demo.patchedMarkup.
  assert (Hfrag : fixImagesFragment Demo.world Demo.markup []
                  = ([EvImage "a.png" (Some (mkSize 600 400))],
                     Resolved Demo.patchedMarkup))
    by (vm_compute; reflexivity).
  assert (Hback : parseHTML Demo.world (serializeHTML Demo.world Demo.patchedMarkup)
                  = Demo.patchedMarkup)
    by (vm_compute; reflexivity).
  split; [exact Hfrag |]. split; [exact Hback |].
  exact (second_pass_loads_nothing Demo.world Demo.markup [] _ _ Hfrag Hback []).
Defined.

Lemma forwarded_never_overwrites_saved_witness :
  intercepted Demo.world Demo.save = true ∧
  ∃ o r o' r' ds d' ms m',
    EvApiFetch o r ∈ (middleware Demo.world Demo.save []).1 ∧
    data o = Given ds ∧ meta ds = Some ms ∧ is_Some (ms !! "is_public") ∧
    EvNext o' r' ∈ (middleware Demo.world Demo.save []).1 ∧
    data o' = Given d' ∧ meta d' = Some m' ∧
    Demo.payloadMeta !! "is_public" = Some (JS.Bool false) ∧
    m' !! "is_public" = None.
Proof.
  split; [reflexivity |].
  assert (Hcall : EvApiFetch
                    (saveMetaRequest Demo.newsletter Demo.payload (Some Demo.editedMeta))
                    (Some (Object ∅))
                  ∈ (middleware Demo.world Demo.save []).1).
  { apply (list_elem_of_lookup_2 _ 0). vm_compute. reflexivity. }
  assert (Hnext : EvNext (stripMeta "newspack_email_html" Demo.save) (Some Demo.answer)
                  ∈ (middleware Demo.world Demo.save []).1).
  { apply (list_elem_of_lookup_2 _ 4). vm_compute. reflexivity. }
  assert (Hk : is_Some (Lodash.pick (Some Demo.editedMeta) POST_META_WHITELIST
                          !! "is_public")).
  { exists (JS.Bool true). vm_compute. reflexivity. }
  eexists _, _, _, _, _, _, _, _.
  split; [exact Hcall |]. split; [reflexivity |]. split; [reflexivity |].
  split; [exact Hk |]. split; [exact Hnext |].
  split; [reflexivity |]. split; [reflexivity |].
  split; [vm_compute; reflexivity |].
  exact (forwarded_never_overwrites_saved Demo.world Demo.save []
           (middleware Demo.world Demo.save []).1
           (middleware Demo.world Demo.save []).2
           _ _ _ _ _ _ _ _ "is_public"
           eq_refl (surjective_pairing _) Hcall eq_refl eq_refl Hk
           Hnext eq_refl eq_refl).
Defined.
